(** * GalaChain launchpad: request validators and batch-submit authorities

    A shallow embedding of
    - [src/api/validators/decorators.ts]: the [validate] callbacks that the
      decorators register with class-validator, and
    - the batch-submit authority functions ([fetch...], [authorize...],
      [deauthorize...], [get...], [isAuthorizedFor...]),
    together with the properties of the specification that concern them.

    JavaScript exceptions are explicit: a computation that may throw returns
    a [Completion].  Ledger access threads the world state explicitly. *)

From Stdlib Require Import ZArith NArith QArith Qpower List SetoidList String Ascii Bool Lia.
From stdpp Require Import base option list strings gmap.

Local Open Scope Z_scope.

(** ** Exceptions and completions *)

(** The error codes of [ErrorCode] that the code under study can meet. *)
Inductive ErrorCode :=
| NOT_FOUND
| NOT_IMPLEMENTED
| DEFAULT_ERROR.

(** What a [throw] carries: a [ChainError] with its code, or a native
    [TypeError] of the JavaScript runtime. *)
Inductive Exception :=
| ChainError (code : ErrorCode) (message : string)
| TypeError (message : string).

Inductive Completion (A : Type) :=
| Return (a : A)
| Throw (e : Exception).
Arguments Return {A} a.
Arguments Throw {A} e.

Definition bind {A B} (c : Completion A) (k : A -> Completion B) : Completion B :=
  match c with
  | Return a => k a
  | Throw e => Throw e
  end.

(** [p.catch(handler)] and [try { ... } catch { ... }]. *)
Definition catch {A} (c : Completion A) (handler : Exception -> Completion A)
  : Completion A :=
  match c with
  | Return a => Return a
  | Throw e => handler e
  end.

Declare Scope completion_scope.
Delimit Scope completion_scope with completion.
Notation "x <- c1 ;; c2" := (bind c1 (fun x => c2))
  (at level 100, c1 at next level, right associativity) : completion_scope.

(** ** Decimal values (bignumber.js) *)

Module Decimal.

(** Modelled from the spec: the Decimal Value of section 4.1.  The code
    takes it from the package bignumber.js, which is not part of the
    sources; the fields and predicates below follow the package.  A value
    is not-a-number, a signed infinity, or a signed finite decimal
    [c * 10^e]; the sign is kept apart from the coefficient so that zero
    has a sign, as in the package ([s], [c] and [e] fields).  The limits
    that the package puts on the exponent are not modelled. *)
Inductive BigNumber :=
| BN_NaN
| BN_Infinity (neg : bool)
| BN_Finite (neg : bool) (c : N) (e : Z).

(** The [s] field: [1], [-1], or [null] for not-a-number. *)
Definition s (x : BigNumber) : option Z :=
  match x with
  | BN_NaN => None
  | BN_Infinity neg | BN_Finite neg _ _ => Some (if neg then -1 else 1)
  end.

(** The [c] field: the coefficient, [null] unless the value is finite. *)
Definition c (x : BigNumber) : option N :=
  match x with
  | BN_Finite _ c _ => Some c
  | _ => None
  end.

(** [isNaN]: [!this.s]. *)
Definition isNaN (x : BigNumber) : bool :=
  match s x with None => true | Some _ => false end.

(** [isFinite]: [!!this.c]. *)
Definition isFinite (x : BigNumber) : bool :=
  match c x with Some _ => true | None => false end.

(** [isPositive]: [this.s > 0]; the comparison with [null] is false. *)
Definition isPositive (x : BigNumber) : bool :=
  match s x with Some sg => 0 <? sg | None => false end.

(** [isNegative]: [this.s < 0]. *)
Definition isNegative (x : BigNumber) : bool :=
  match s x with Some sg => sg <? 0 | None => false end.

(** [isZero]: [!!this.c && this.c[0] == 0]. *)
Definition isZero (x : BigNumber) : bool :=
  match c x with Some c => N.eqb c 0 | None => false end.

(** [isInteger]: finite with no fractional digit. *)
Definition isInteger (x : BigNumber) : bool :=
  match x with
  | BN_Finite _ c e =>
      (0 <=? e) || (Z.of_N c mod 10 ^ (- e) =? 0)
  | _ => false
  end.

(** The signed coefficient of a finite value. *)
Definition signed (neg : bool) (c : N) : Z :=
  if neg then - Z.of_N c else Z.of_N c.

(** Two finite decimals are compared on a common exponent. *)
Definition compare_finite (z1 e1 z2 e2 : Z) : comparison :=
  let k := Z.min e1 e2 in
  Z.compare (z1 * 10 ^ (e1 - k)) (z2 * 10 ^ (e2 - k)).

(** [compare(x, y)]: [null] when either side is not-a-number, otherwise the
    order of the extended number line; the two zeros are equal. *)
Definition compare (x y : BigNumber) : option comparison :=
  match x, y with
  | BN_NaN, _ | _, BN_NaN => None
  | BN_Infinity n1, BN_Infinity n2 =>
      Some (match n1, n2 with
            | true, false => Lt
            | false, true => Gt
            | _, _ => Eq
            end)
  | BN_Infinity n1, BN_Finite _ _ _ => Some (if n1 then Lt else Gt)
  | BN_Finite _ _ _, BN_Infinity n2 => Some (if n2 then Gt else Lt)
  | BN_Finite n1 c1 e1, BN_Finite n2 c2 e2 =>
      Some (compare_finite (signed n1 c1) e1 (signed n2 c2) e2)
  end.

(** [isLessThanOrEqualTo]: [(b = compare(this, y)) === -1 || b === 0]. *)
Definition isLessThanOrEqualTo (x y : BigNumber) : bool :=
  match compare x y with
  | Some Lt | Some Eq => true
  | Some Gt | None => false
  end.

(** *** Reading a decimal literal *)

Definition is_digit (a : ascii) : bool :=
  let n := N_of_ascii a in (48 <=? n)%N && (n <=? 57)%N.

Definition digit_value (a : ascii) : N := (N_of_ascii a - 48)%N.

(** The longest prefix of digits, and what follows it. *)
Fixpoint span_digits (l : list ascii) : list ascii * list ascii :=
  match l with
  | a :: t =>
      if is_digit a then let '(ds, rest) := span_digits t in (a :: ds, rest)
      else ([], l)
  | [] => ([], [])
  end.

Definition digits_to_N (ds : list ascii) : N :=
  fold_left (fun acc a => (10 * acc + digit_value a)%N) ds 0%N.

(** The optional exponent part (the letter e in either case, an optional
    sign, at least one digit), followed by the end of the input. *)
Definition read_exponent (l : list ascii) : option Z :=
  match l with
  | [] => Some 0
  | a :: t =>
      if (Ascii.eqb a "e" || Ascii.eqb a "E")%bool then
        let '(neg, t') :=
          match t with
          | "-"%char :: u => (true, u)
          | "+"%char :: u => (false, u)
          | _ => (false, t)
          end in
        match span_digits t' with
        | (_ :: _ as ds, []) =>
            Some (if neg : bool then - Z.of_N (digits_to_N ds)
                  else Z.of_N (digits_to_N ds))
        | _ => None
        end
      else None
  end.

(** The package's [isNumeric] grammar: an optional minus sign; then digits
    with an optional point and optional further digits, or a point and at
    least one digit; then an optional exponent part.  The literal is read
    into sign, coefficient and exponent. *)
Definition read_decimal (l : list ascii) : option BigNumber :=
  let '(neg, l1) :=
    match l with
    | "-"%char :: t => (true, t)
    | _ => (false, l)
    end in
  let '(ip, l2) := span_digits l1 in
  let '(dot, fp, l3) :=
    match l2 with
    | "."%char :: t => let '(fp, l3) := span_digits t in (true, fp, l3)
    | _ => (false, [], l2)
    end in
  let well_formed :=
    match ip, fp with
    | _ :: _, _ => true
    | [], _ :: _ => dot
    | [], [] => false
    end in
  if well_formed : bool then
    match read_exponent l3 with
    | Some ex =>
        Some (BN_Finite neg (digits_to_N (ip ++ fp)) (ex - Z.of_nat (length fp)))
    | None => None
    end
  else None.

(** [new BigNumber(str)] for a string: a decimal literal, one of the
    literals [Infinity], [-Infinity], [NaN], or else not-a-number (the
    package raises nothing unless its DEBUG switch is set, which this
    code base leaves alone).  The decimal grammar of the spec is what is
    read: the other notations that the package accepts (blanks around the
    literal, an explicit plus sign, the radix prefixes) read as
    not-a-number here. *)
Definition of_string (str : string) : BigNumber :=
  match read_decimal (list_ascii_of_string str) with
  | Some x => x
  | None =>
      if String.eqb str "Infinity" then BN_Infinity false
      else if String.eqb str "-Infinity" then BN_Infinity true
      else BN_NaN
  end.

End Decimal.

(** ** JavaScript values *)

Module JS.
Import Decimal.

(** The values a request field can hold.  A number is identified with the
    decimal that its string form denotes (the form the Decimal Value
    constructor reads), with not-a-number, the infinities and the negative
    zero included.  Objects carry the reference that gives them their
    identity: a Decimal Value instance, an array, or a plain data object. *)
#[warnings="-register-all"]
Inductive JSValue :=
| JSUndefined
| JSNull
| JSBoolean (b : bool)
| JSNumber (d : BigNumber)
| JSString (str : string)
| JSBigNumber (ref : nat) (bn : BigNumber)
| JSArray (ref : nat) (elems : list JSValue)
| JSObject (ref : nat) (fields : list (string * JSValue)).

Inductive JSType :=
| TUndefined | TObject | TBoolean | TNumber | TString.

(** The [typeof] operator ([typeof null] is ["object"]). *)
Definition typeof (v : JSValue) : JSType :=
  match v with
  | JSUndefined => TUndefined
  | JSNull => TObject
  | JSBoolean _ => TBoolean
  | JSNumber _ => TNumber
  | JSString _ => TString
  | JSBigNumber _ _ | JSArray _ _ | JSObject _ _ => TObject
  end.

Definition JSType_eqb (a b : JSType) : bool :=
  match a, b with
  | TUndefined, TUndefined | TObject, TObject | TBoolean, TBoolean
  | TNumber, TNumber | TString, TString => true
  | _, _ => false
  end.

(** Equality of two numbers as [===] sees it: not-a-number differs from
    everything, the two zeros are equal. *)
Definition number_equals (x y : BigNumber) : bool :=
  match compare x y with
  | Some Eq => true
  | _ => false
  end.

(** The strict equality [===]: primitives by content, objects by
    reference. *)
Definition strictEquals (x y : JSValue) : bool :=
  match x, y with
  | JSUndefined, JSUndefined => true
  | JSNull, JSNull => true
  | JSBoolean a, JSBoolean b => Bool.eqb a b
  | JSNumber a, JSNumber b => number_equals a b
  | JSString a, JSString b => String.eqb a b
  | (JSBigNumber r1 _ | JSArray r1 _ | JSObject r1 _),
    (JSBigNumber r2 _ | JSArray r2 _ | JSObject r2 _) => Nat.eqb r1 r2
  | _, _ => false
  end.

(** SameValueZero, the equality of [Set]: as [===], except that
    not-a-number equals itself. *)
Definition sameValueZero (x y : JSValue) : bool :=
  match x, y with
  | JSNumber a, JSNumber b => (isNaN a && isNaN b) || number_equals a b
  | _, _ => strictEquals x y
  end.

(** [new Set(iterable)]: the elements in insertion order, one per class of
    SameValueZero. *)
Definition Set_add (members : list JSValue) (v : JSValue) : list JSValue :=
  if existsb (sameValueZero v) members then members else members ++ [v].

Definition Set_new (iterable : list JSValue) : list JSValue :=
  fold_left Set_add iterable [].

(** [set.size]. *)
Definition Set_size (members : list JSValue) : nat := length members.

(** [BigNumber.isBigNumber(v)] and [v instanceof BigNumber]: both recognise
    exactly the Decimal Value instances. *)
Definition isBigNumber (v : JSValue) : bool :=
  match v with
  | JSBigNumber _ _ => true
  | _ => false
  end.

(** [args.object[name]]: an absent property reads as [undefined]. *)
Definition get_property (object : gmap string JSValue) (name : string) : JSValue :=
  default JSUndefined (object !! name).

End JS.

(** ** The validators of [decorators.ts] *)

Module Validators.
Import Decimal JS.
Local Open Scope completion_scope.

Section Runtime.

(** The string conversion of the runtime ([String(v)]), which may throw for
    an object; it is taken as given. *)
Variable ToString : JSValue -> Completion string.

(** [Array.prototype.toString]: the elements joined by commas, [undefined]
    and [null] contributing nothing. *)
Fixpoint Array_join (elems : list JSValue) : Completion string :=
  match elems with
  | [] => Return EmptyString
  | v :: rest =>
      head <- match v with
              | JSUndefined | JSNull => Return EmptyString
              | _ => ToString v
              end;;
      match rest with
      | [] => Return head
      | _ :: _ => tail <- Array_join rest;; Return (head ++ "," ++ tail)%string
      end
  end.

(** [new BigNumber(v)]: an instance is copied, a number is taken at its
    decimal value, anything else goes through its string form. *)
Definition BigNumber_new (v : JSValue) : Completion BigNumber :=
  match v with
  | JSBigNumber _ bn => Return bn
  | JSNumber d => Return d
  | JSString str => Return (of_string str)
  | JSUndefined => Return (of_string "undefined")
  | JSNull => Return (of_string "null")
  | JSBoolean b => Return (of_string (if b then "true" else "false"))
  | JSArray _ elems => str <- Array_join elems;; Return (of_string str)
  | JSObject _ _ => str <- ToString v;; Return (of_string str)
  end.

(** *** IsDifferentValue *)

Definition IsDifferentValue_message : string :=
  "IsDifferentValue only works with string or undefined".

(** [validate(value, args)] of [IsDifferentValue(property)]; [object] is
    [args.object] and [property] the single registered constraint. *)
Definition IsDifferentValue (property : string) (value : JSValue)
    (object : gmap string JSValue) : Completion bool :=
  let relatedPropertyName := property in
  let relatedValue := get_property object relatedPropertyName in
  if (negb (JSType_eqb (typeof value) TString)
        && negb (strictEquals value JSUndefined))
     || (negb (JSType_eqb (typeof relatedValue) TString)
           && negb (strictEquals relatedValue JSUndefined))
  then Throw (ChainError NOT_IMPLEMENTED IsDifferentValue_message)
  else Return (negb (strictEquals value relatedValue)).

(** *** ArrayUniqueConcat *)

(** The characters of a string as values, the way a string is iterated. *)
Definition string_chars (str : string) : list JSValue :=
  map (fun a => JSString (String a EmptyString)) (list_ascii_of_string str).

(** [relatedValue.concat(value)], as the sequence that [new Set] then
    iterates.  An array appends the elements of [value]; a string appends
    the string form of [value]; [undefined] and [null] have no properties;
    any other value has no [concat] method. *)
Definition concat (relatedValue : JSValue) (value : list JSValue)
  : Completion (list JSValue) :=
  match relatedValue with
  | JSArray _ elems => Return (elems ++ value)
  | JSString str =>
      tail <- Array_join value;; Return (string_chars (str ++ tail))
  | JSUndefined | JSNull =>
      Throw (TypeError "Cannot read properties of undefined or null")
  | JSBoolean _ | JSNumber _ | JSBigNumber _ _ | JSObject _ _ =>
      Throw (TypeError "relatedValue.concat is not a function")
  end.

(** [relatedValue.length] where it is read, after [concat] returned. *)
Definition length_of (relatedValue : JSValue) : nat :=
  match relatedValue with
  | JSArray _ elems => length elems
  | JSString str => String.length str
  | _ => 0%nat
  end.

(** [validate(value, args)] of [ArrayUniqueConcat(property)]; [value] has
    its declared type, an array. *)
Definition ArrayUniqueConcat (property : string) (value : list JSValue)
    (object : gmap string JSValue) : Completion bool :=
  let relatedPropertyName := property in
  let relatedValue := get_property object relatedPropertyName in
  concatenated <- concat relatedValue value;;
  let totalUniques := Set_size (Set_new concatenated) in
  Return (Nat.eqb totalUniques (length_of relatedValue + length value)).

(** *** The Decimal Value predicates *)

(** [IsBigNumber]. *)
Definition IsBigNumber (value : JSValue) : bool := isBigNumber value.

Definition validateBigNumberOrIgnore (obj : JSValue) (fn : BigNumber -> bool)
  : bool :=
  match obj with
  | JSBigNumber _ bn => fn bn
  | _ => true
  end.

Definition BigNumberIsPositive (value : JSValue) : bool :=
  validateBigNumberOrIgnore value (fun b => isPositive b).

Definition BigNumberIsNegative (value : JSValue) : bool :=
  validateBigNumberOrIgnore value (fun b => isNegative b).

Definition BigNumberIsNotInfinity (value : JSValue) : bool :=
  validateBigNumberOrIgnore value (fun b => isFinite b).

Definition BigNumberIsNotNegative (value : JSValue) : bool :=
  validateBigNumberOrIgnore value (fun b => negb (isNegative b)).

Definition BigNumberIsInteger (value : JSValue) : bool :=
  validateBigNumberOrIgnore value (fun b => isInteger b).

(** [value instanceof BigNumber && !value.isZero()]. *)
Definition IsNonZeroBigNumber (value : JSValue) : bool :=
  match value with
  | JSBigNumber _ bn => negb (isZero bn)
  | _ => false
  end.

(** *** BigNumberMax *)

(** [validate(value)] of [BigNumberMax], with the bound [max] already
    built: the [try] block, and [false] from the [catch] clause. *)
Definition BigNumberMax_validate (max : BigNumber) (value : JSValue) : bool :=
  match (bn <- BigNumber_new value;; Return (isLessThanOrEqualTo bn max)) with
  | Return verdict => verdict
  | Throw _ => false
  end.

(** [BigNumberMax(maxValue)]: the bound is built once, outside the [try],
    when the decorator is applied. *)
Definition BigNumberMax (maxValue : JSValue) : Completion (JSValue -> bool) :=
  max <- BigNumber_new maxValue;; Return (BigNumberMax_validate max).

End Runtime.
End Validators.

(** ** The batch-submit authority registry *)

Module Authorities.
Local Open Scope completion_scope.
Local Open Scope string_scope.

(** Modelled from the spec: the class [LaunchpadBatchSubmitAuthorities] of
    the api package, of which the functions below use the constructor and
    four methods.  It holds the principals in a sequence without
    duplicates: [addAuthority] is a no-op for a principal already present,
    [removeAuthority] a no-op for one that is absent. *)
Record LaunchpadBatchSubmitAuthorities := {
  authorities : list string
}.

Definition addAuthority (this : LaunchpadBatchSubmitAuthorities) (user : string)
  : LaunchpadBatchSubmitAuthorities :=
  if bool_decide (user ∈ authorities this) then this
  else {| authorities := authorities this ++ [user] |}.

Definition removeAuthority (this : LaunchpadBatchSubmitAuthorities) (user : string)
  : LaunchpadBatchSubmitAuthorities :=
  {| authorities := filter (fun a => a ≠ user) (authorities this) |}.

Definition getAuthorities (this : LaunchpadBatchSubmitAuthorities) : list string :=
  authorities this.

Definition isAuthorized (this : LaunchpadBatchSubmitAuthorities) (user : string)
  : bool :=
  bool_decide (user ∈ authorities this).

(** The request and response objects, by the fields the functions use. *)
Record AuthorizeBatchSubmitterDto := { authorize_authorities : list string }.
Record DeauthorizeBatchSubmitterDto := { deauthorize_authority : string }.
Record FetchBatchSubmitAuthoritiesDto := { }.
Record BatchSubmitAuthoritiesResDto := { res_authorities : list string }.

(** The transaction context: the world state under its keys, and the
    identity of the caller. *)
Record GalaChainContext := {
  state : gmap string LaunchpadBatchSubmitAuthorities;
  callingUser : string
}.

(** [ChainError.from(e)]: a chain error is kept, anything else is wrapped
    as a default error. *)
Definition ChainError_from (e : Exception) : Exception :=
  match e with
  | ChainError _ _ => e
  | TypeError message => ChainError DEFAULT_ERROR message
  end.

Definition ErrorCode_eqb (a b : ErrorCode) : bool :=
  match a, b with
  | NOT_FOUND, NOT_FOUND | NOT_IMPLEMENTED, NOT_IMPLEMENTED
  | DEFAULT_ERROR, DEFAULT_ERROR => true
  | _, _ => false
  end.

(** [chainError.matches(code)]. *)
Definition matches (e : Exception) (code : ErrorCode) : bool :=
  match e with
  | ChainError c _ => ErrorCode_eqb c code
  | TypeError _ => false
  end.

(** [ctx.stub.createCompositeKey(objectType, attributes)]: the parts, each
    behind a zero character. *)
Definition createCompositeKey (objectType : string) (attributes : list string)
  : string :=
  fold_left (fun key part => key ++ String "000" part) (objectType :: attributes)
    EmptyString ++ String "000" EmptyString.

(** Modelled from the spec: the persistence collaborator of section 6.
    [getObjectByKey] reads the record under a key and signals NotFound when
    there is none; [putChainObject] writes the record under the key of its
    class. *)
Definition getObjectByKey (ctx : GalaChainContext) (key : string)
  : Completion LaunchpadBatchSubmitAuthorities :=
  match state ctx !! key with
  | Some object => Return object
  | None => Throw (ChainError NOT_FOUND key)
  end.

Section Registry.

(** [LaunchpadBatchSubmitAuthorities.INDEX_KEY]. *)
Variable INDEX_KEY : string.

(** [putChainObject(ctx, object)]: the record goes under the key of its
    class, which has no key parts besides [INDEX_KEY]. *)
Definition putChainObject (ctx : GalaChainContext)
    (object : LaunchpadBatchSubmitAuthorities) : Completion GalaChainContext :=
  Return {| state := <[createCompositeKey INDEX_KEY [] := object]> (state ctx);
            callingUser := callingUser ctx |}.

Definition fetchLaunchpadBatchSubmitAuthorities (ctx : GalaChainContext)
  : Completion LaunchpadBatchSubmitAuthorities :=
  let key := createCompositeKey INDEX_KEY [] in
  getObjectByKey ctx key.

(** The functions that write return the context they leave behind. *)
Definition authorizeLaunchpadBatchSubmitter (ctx : GalaChainContext)
    (dto : AuthorizeBatchSubmitterDto)
  : Completion (BatchSubmitAuthoritiesResDto * GalaChainContext) :=
  let key := createCompositeKey INDEX_KEY [] in
  authorities <- catch (getObjectByKey ctx key) (fun e =>
    let chainError := ChainError_from e in
    if matches chainError NOT_FOUND
    then Return {| authorities := [] |}
    else Throw chainError);;
  let authorities := fold_left addAuthority (authorize_authorities dto) authorities in
  ctx' <- putChainObject ctx authorities;;
  let result := {| res_authorities := getAuthorities authorities |} in
  Return (result, ctx').

Definition deauthorizeLaunchpadBatchSubmitter (ctx : GalaChainContext)
    (dto : DeauthorizeBatchSubmitterDto)
  : Completion (BatchSubmitAuthoritiesResDto * GalaChainContext) :=
  authorities <- fetchLaunchpadBatchSubmitAuthorities ctx;;
  let authorities := removeAuthority authorities (deauthorize_authority dto) in
  ctx' <- putChainObject ctx authorities;;
  let result := {| res_authorities := getAuthorities authorities |} in
  Return (result, ctx').

Definition getLaunchpadBatchSubmitAuthorities (ctx : GalaChainContext)
    (dto : FetchBatchSubmitAuthoritiesDto)
  : Completion BatchSubmitAuthoritiesResDto :=
  authorities <- fetchLaunchpadBatchSubmitAuthorities ctx;;
  let result := {| res_authorities := getAuthorities authorities |} in
  Return result.

Definition isAuthorizedForLaunchpadBatchSubmit (ctx : GalaChainContext)
  : Completion bool :=
  authorities <- fetchLaunchpadBatchSubmitAuthorities ctx;;
  Return (isAuthorized authorities (callingUser ctx)).

(** The invariant of the Authority Set: the record, when there is one,
    lists no principal twice. *)
Definition no_duplicate_authorities (ctx : GalaChainContext) : Prop :=
  forall object,
    state ctx !! createCompositeKey INDEX_KEY [] = Some object ->
    NoDup (authorities object).

(** The ledgers that the registry can be in: the one that never saw a
    write, and those that a successful authorize or deauthorize call leaves
    behind, for whatever caller. *)
Inductive reachable : GalaChainContext -> Prop :=
| reachable_genesis (user : string) :
    reachable {| state := ∅; callingUser := user |}
| reachable_caller (ctx : GalaChainContext) (user : string) :
    reachable ctx ->
    reachable {| state := state ctx; callingUser := user |}
| reachable_authorize (ctx ctx' : GalaChainContext)
    (dto : AuthorizeBatchSubmitterDto) (res : BatchSubmitAuthoritiesResDto) :
    reachable ctx ->
    authorizeLaunchpadBatchSubmitter ctx dto = Return (res, ctx') ->
    reachable ctx'
| reachable_deauthorize (ctx ctx' : GalaChainContext)
    (dto : DeauthorizeBatchSubmitterDto) (res : BatchSubmitAuthoritiesResDto) :
    reachable ctx ->
    deauthorizeLaunchpadBatchSubmitter ctx dto = Return (res, ctx') ->
    reachable ctx'.

End Registry.

(** The key of the one Authority Set record. *)
Abbreviation registry_key INDEX_KEY := (createCompositeKey INDEX_KEY []).

End Authorities.

(** ** The vocabulary of the specification *)

Module Spec.
Import Decimal JS.

(** The rational number that a finite decimal denotes. *)
Definition toQ (neg : bool) (c : N) (e : Z) : Q :=
  (inject_Z (signed neg c) * inject_Z 10 ^ e)%Q.

(** "Less than or equal" on decimal values, as a number line with the two
    infinities at its ends; not-a-number is related to nothing. *)
Definition decimal_le (x y : BigNumber) : Prop :=
  match x, y with
  | BN_NaN, _ | _, BN_NaN => False
  | BN_Infinity true, _ => True
  | _, BN_Infinity false => True
  | BN_Infinity false, _ => False
  | _, BN_Infinity true => False
  | BN_Finite n1 c1 e1, BN_Finite n2 c2 e2 =>
      (toQ n1 c1 e1 <= toQ n2 c2 e2)%Q
  end.

(** The zero value, of either sign and any exponent. *)
Definition is_zero_value (x : BigNumber) : Prop :=
  match x with
  | BN_Finite _ c _ => c = 0%N
  | _ => False
  end.

(** Two values are the same value for [Set]. *)
Definition same_value (x y : JSValue) : Prop := sameValueZero x y = true.

(** A sequence holds no duplicate: no element is the same value as a later
    one. *)
Definition no_duplicates (l : list JSValue) : Prop := NoDupA same_value l.

(** Two sequences have no element in common. *)
Definition no_overlap (l1 l2 : list JSValue) : Prop :=
  forall x y, x ∈ l1 -> y ∈ l2 -> sameValueZero x y = false.

(** A field that holds a string or is [undefined]. *)
Definition string_or_undefined (v : JSValue) : bool :=
  match v with
  | JSUndefined | JSString _ => true
  | _ => false
  end.

(** The verdict of the distinct-string check on two such fields: they
    differ unless both are [undefined] or both hold the same string. *)
Definition differ (v w : JSValue) : bool :=
  match v, w with
  | JSUndefined, JSUndefined => false
  | JSString a, JSString b => negb (String.eqb a b)
  | _, _ => true
  end.

(** A value on which [concat] can be called: an array or a string. *)
Definition has_concat (v : JSValue) : bool :=
  match v with
  | JSArray _ _ | JSString _ => true
  | _ => false
  end.

End Spec.

(** ** The other validators of [decorators.ts] *)

Module MoreValidators.
Import Decimal JS Validators.
Local Open Scope string_scope.
Local Open Scope Z_scope.
Local Open Scope completion_scope.

(** *** Numbers *)

(** The number zero. *)
Definition zero : BigNumber := BN_Finite false 0 0.

(** [Math.floor]: the integer below, with the sign kept on a zero; the
    infinities and not-a-number are left as they are. *)
Definition Math_floor (x : BigNumber) : BigNumber :=
  match x with
  | BN_Finite neg c e =>
      if 0 <=? e then x
      else BN_Finite neg (Z.abs_N (signed neg c / 10 ^ (- e))) 0
  | _ => x
  end.

(** The subtraction [x - y] of two numbers.  Two infinities of one sign
    give not-a-number.  On finite numbers the difference is taken exactly;
    the runtime rounds it, but the rounded difference is zero exactly when
    the exact one is, and the code below only asks whether it is zero.  A
    zero difference is negative only for [-0 - 0]. *)
Definition minus (x y : BigNumber) : BigNumber :=
  match x, y with
  | BN_NaN, _ | _, BN_NaN => BN_NaN
  | BN_Infinity n1, BN_Infinity n2 =>
      if Bool.eqb n1 n2 then BN_NaN else BN_Infinity n1
  | BN_Infinity n1, BN_Finite _ _ _ => BN_Infinity n1
  | BN_Finite _ _ _, BN_Infinity n2 => BN_Infinity (negb n2)
  | BN_Finite n1 c1 e1, BN_Finite n2 c2 e2 =>
      let k := Z.min e1 e2 in
      let z := signed n1 c1 * 10 ^ (e1 - k) - signed n2 c2 * 10 ^ (e2 - k) in
      BN_Finite (if z =? 0 then n1 && negb n2 && (c1 =? 0)%N else z <? 0)
        (Z.abs_N z) k
  end.

(** [x < y] on numbers: false when either is not-a-number. *)
Definition less_than (x y : BigNumber) : bool :=
  match compare x y with
  | Some Lt => true
  | _ => false
  end.

(** [!!v]. *)
Definition truthy (v : JSValue) : bool :=
  match v with
  | JSUndefined | JSNull => false
  | JSBoolean b => b
  | JSNumber d => negb (isNaN d || isZero d)
  | JSString str => negb (String.eqb str "")
  | JSBigNumber _ _ | JSArray _ _ | JSObject _ _ => true
  end.

(** [Array.isArray(v)]. *)
Definition isArray (v : JSValue) : bool :=
  match v with
  | JSArray _ _ => true
  | _ => false
  end.

(** The own property of a plain object under a name, if there is one. *)
Fixpoint own_property (fields : list (string * JSValue)) (name : string)
  : option JSValue :=
  match fields with
  | [] => None
  | (key, val) :: rest =>
      if String.eqb key name then Some val else own_property rest name
  end.

(** The own fields of a Decimal Value instance: [s], [e] and [c].  The
    sign is as the package has it; the exponent and the coefficient are
    shown in the representation of this model (the package keeps the
    coefficient in an array of chunks), which the code below does not look
    into beyond their types. *)
Definition BigNumber_fields (bn : BigNumber) : list (string * JSValue) :=
  [ ("s", match s bn with
          | Some sg => JSNumber (BN_Finite (sg <? 0) 1 0)
          | None => JSNull
          end);
    ("e", match bn with
          | BN_Finite _ _ e => JSNumber (BN_Finite (e <? 0) (Z.abs_N e) 0)
          | _ => JSNull
          end);
    ("c", match bn with
          | BN_Finite _ c _ => JSArray 0 [JSNumber (BN_Finite false c 0)]
          | _ => JSNull
          end) ].

(** [Object.entries(v)] for an object that is not an array. *)
Definition Object_entries (v : JSValue) : list (string * JSValue) :=
  match v with
  | JSObject _ fields => fields
  | JSBigNumber _ bn => BigNumber_fields bn
  | _ => []
  end.

Section Runtime.

(** The conversion to a number of a string or an object, and the property
    reads that the data of a value do not determine (inherited members, the
    members of arrays and of Decimal Value instances): both are taken as
    given. *)
Variable ToNumber_given : JSValue -> Completion BigNumber.
Variable Get_given : JSValue -> string -> JSValue.

(** [Number(v)]. *)
Definition Number (v : JSValue) : Completion BigNumber :=
  match v with
  | JSUndefined => Return BN_NaN
  | JSNull => Return zero
  | JSBoolean b => Return (BN_Finite false (if b then 1 else 0) 0)
  | JSNumber d => Return d
  | JSString _ | JSBigNumber _ _ | JSArray _ _ | JSObject _ _ =>
      ToNumber_given v
  end.

(** [v[name]] for an object [v]. *)
Definition Get (v : JSValue) (name : string) : JSValue :=
  match v with
  | JSObject _ fields =>
      match own_property fields name with
      | Some val => val
      | None => Get_given v name
      end
  | _ => Get_given v name
  end.

(** *** IsWholeNumber *)

(** [validate(value, args)] of [IsWholeNumber(property)]: the decorated
    value is not looked at. *)
Definition IsWholeNumber (property : string) (value : JSValue)
    (object : gmap string JSValue) : Completion bool :=
  let relatedPropertyName := property in
  let relatedValue := get_property object relatedPropertyName in
  num <- Number relatedValue;;
  Return (number_equals (minus num (Math_floor num)) zero).

(** *** ArrayUniqueObjects *)

Definition ArrayUniqueObjects (property : string) (value : JSValue) : bool :=
  match value with
  | JSArray _ elems =>
      let propertyValues :=
        map (fun v =>
               if JSType_eqb (typeof v) TObject && truthy v
               then Get v property else JSUndefined) elems in
      Nat.eqb (Set_size (Set_new propertyValues)) (length elems)
  | _ => false
  end.

End Runtime.

(** *** IsLessThan *)

Definition IsLessThan (property : string) (value : JSValue)
    (object : gmap string JSValue) : bool :=
  let relatedPropertyName := property in
  let relatedValue := get_property object relatedPropertyName in
  match value, relatedValue with
  | JSNumber a, JSNumber b => less_than a b
  | _, _ => false
  end.

(** *** IsStringRecord and IsStringArrayRecord *)

Definition IsStringRecord (value : JSValue) : bool :=
  if negb (JSType_eqb (typeof value) TObject)
     || strictEquals value JSNull || isArray value
  then false
  else forallb (fun '(key, val) => JSType_eqb (typeof val) TString)
         (Object_entries value).

Definition IsStringArrayRecord (value : JSValue) : bool :=
  if negb (JSType_eqb (typeof value) TObject)
     || strictEquals value JSNull || isArray value
  then false
  else forallb
         (fun '(key, val) =>
            match val with
            | JSArray _ items =>
                forallb (fun item => JSType_eqb (typeof item) TString) items
            | _ => false
            end)
         (Object_entries value).

(** *** BigNumberLessThanOrEqualOther *)

Definition BigNumberLessThanOrEqualOther (property : string) (value : JSValue)
    (object : gmap string JSValue) : bool :=
  let relatedPropertyName := property in
  let relatedValue := get_property object relatedPropertyName in
  match value, relatedValue with
  | JSBigNumber _ a, JSBigNumber _ b => isLessThanOrEqualTo a b
  | _, _ => false
  end.

(** *** What the decorators register *)

(** Modelled from the spec: the constraint registry of section 4.2, which
    the code takes from the package class-validator.  [registerDecorator]
    records a constraint for a field; validating an object runs the
    constraints in the order of their registration, each on the value of
    its field and the object, and reports those that return false. *)
Record Registration := {
  name : string;
  propertyName : string;
  validate : JSValue -> gmap string JSValue -> Completion bool
}.

Definition registerDecorator (r : Registration) (storage : list Registration)
  : list Registration :=
  storage ++ [r].

Fixpoint violations (storage : list Registration) (object : gmap string JSValue)
  : Completion (list (string * string)) :=
  match storage with
  | [] => Return []
  | r :: rest =>
      verdict <- validate r (get_property object (propertyName r)) object;;
      others <- violations rest object;;
      Return (if verdict : bool then others
              else (propertyName r, name r) :: others)
  end.

(** The decorators, as what applying them to a field adds to the registry.
    The five Decimal Value constraints apply [IsBigNumber] first. *)
Definition IsBigNumber_decorator (field : string) (storage : list Registration)
  : list Registration :=
  registerDecorator
    {| name := "IsBigNumber"; propertyName := field;
       validate := fun value _ => Return (IsBigNumber value) |} storage.

Definition BigNumberIsPositive_decorator (field : string)
    (storage : list Registration) : list Registration :=
  let storage := IsBigNumber_decorator field storage in
  registerDecorator
    {| name := "BigNumberIsPositive"; propertyName := field;
       validate := fun value _ => Return (BigNumberIsPositive value) |} storage.

Definition BigNumberIsNegative_decorator (field : string)
    (storage : list Registration) : list Registration :=
  let storage := IsBigNumber_decorator field storage in
  registerDecorator
    {| name := "BigNumberIsNegative"; propertyName := field;
       validate := fun value _ => Return (BigNumberIsNegative value) |} storage.

Definition BigNumberIsNotInfinity_decorator (field : string)
    (storage : list Registration) : list Registration :=
  let storage := IsBigNumber_decorator field storage in
  registerDecorator
    {| name := "BigNumberIsNotInfinity"; propertyName := field;
       validate := fun value _ => Return (BigNumberIsNotInfinity value) |} storage.

Definition BigNumberIsNotNegative_decorator (field : string)
    (storage : list Registration) : list Registration :=
  let storage := IsBigNumber_decorator field storage in
  registerDecorator
    {| name := "BigNumberIsNotNegative"; propertyName := field;
       validate := fun value _ => Return (BigNumberIsNotNegative value) |} storage.

Definition BigNumberIsInteger_decorator (field : string)
    (storage : list Registration) : list Registration :=
  let storage := IsBigNumber_decorator field storage in
  registerDecorator
    {| name := "BigNumberIsInteger"; propertyName := field;
       validate := fun value _ => Return (BigNumberIsInteger value) |} storage.

Definition IsNonZeroBigNumber_decorator (field : string)
    (storage : list Registration) : list Registration :=
  registerDecorator
    {| name := "isNonZeroBigNumber"; propertyName := field;
       validate := fun value _ => Return (IsNonZeroBigNumber value) |} storage.

(** *** Vocabulary for the properties *)

(** Strictly below, on decimal values. *)
Definition decimal_lt (x y : BigNumber) : Prop :=
  Spec.decimal_le x y /\ ~ Spec.decimal_le y x.

(** A number without fractional part: finite, and a multiple of one. *)
Definition whole (x : BigNumber) : Prop :=
  match x with
  | BN_Finite _ c e => 0 <= e \/ (10 ^ (- e) | Z.of_N c)
  | _ => False
  end.

(** An element of an array that is projected on a key: an object that is
    not [null]. *)
Definition is_object (v : JSValue) : bool :=
  match v with
  | JSBigNumber _ _ | JSArray _ _ | JSObject _ _ => true
  | _ => false
  end.

(** What a field under one of the five Decimal Value decorators reports:
    the type constraint alone on a value of the wrong type, the named
    constraint alone on an instance that fails the predicate, nothing
    otherwise. *)
Definition report (field constraint : string) (value : JSValue)
    (verdict : bool) : list (string * string) :=
  if isBigNumber value
  then if verdict then [] else [(field, constraint)]
  else [(field, "IsBigNumber")].

End MoreValidators.

(** ** Sample ledgers *)

Module Scenario.
Import Authorities.
Local Open Scope string_scope.

(** A value for [INDEX_KEY], which the sources at hand do not show. *)
Definition INDEX_KEY : string := "GCLPBSA".

(** The ledger that never saw a write. *)
Definition genesis : GalaChainContext :=
  {| state := ∅; callingUser := "admin" |}.

(** The ledger after alice, and after alice and bob, were authorized. *)
Definition with_alice : GalaChainContext :=
  {| state := <[registry_key INDEX_KEY := {| authorities := ["alice"] |}]> ∅;
     callingUser := "admin" |}.

Definition with_alice_bob : GalaChainContext :=
  {| state := <[registry_key INDEX_KEY :=
                  {| authorities := ["alice"; "bob"] |}]> ∅;
     callingUser := "admin" |}.

(** The ledger after alice was then deauthorized. *)
Definition with_bob : GalaChainContext :=
  {| state := <[registry_key INDEX_KEY := {| authorities := ["bob"] |}]> ∅;
     callingUser := "admin" |}.

End Scenario.

(** ** Facts about decimal values *)

Module DecimalFacts.
Import Decimal Spec.

Lemma pow10_pos (n : Z) : 0 <= n -> 0 < 10 ^ n.
Proof. intros Hn. apply Z.pow_pos_nonneg; lia. Qed.

Lemma mul_compare_pos (a b p : Z) : 0 < p -> (a * p ?= b * p) = (a ?= b).
Proof.
  intros Hp.
  destruct (Z.compare_spec a b) as [Hab | Hab | Hab];
    destruct (Z.compare_spec (a * p) (b * p)) as [H | H | H];
    try reflexivity; nia.
Qed.

(** The comparison does not depend on the common exponent chosen, as long
    as it is below both. *)
Lemma compare_finite_shift (z1 e1 z2 e2 k : Z) :
  k <= e1 -> k <= e2 ->
  (z1 * 10 ^ (e1 - k) ?= z2 * 10 ^ (e2 - k)) = compare_finite z1 e1 z2 e2.
Proof.
  intros H1 H2. unfold compare_finite.
  set (m := Z.min e1 e2).
  assert (Hm : k <= m) by (subst m; lia).
  assert (Hm1 : m <= e1) by (subst m; lia).
  assert (Hm2 : m <= e2) by (subst m; lia).
  replace (e1 - k) with ((e1 - m) + (m - k)) by lia.
  replace (e2 - k) with ((e2 - m) + (m - k)) by lia.
  rewrite !Z.pow_add_r by lia.
  rewrite !Z.mul_assoc.
  apply mul_compare_pos, pow10_pos. lia.
Qed.

Lemma compare_finite_antisym (z1 e1 z2 e2 : Z) :
  compare_finite z2 e2 z1 e1 = CompOpp (compare_finite z1 e1 z2 e2).
Proof.
  unfold compare_finite. rewrite (Z.min_comm e2 e1). apply Z.compare_antisym.
Qed.

Lemma compare_finite_refl (z e : Z) : compare_finite z e z e = Eq.
Proof. unfold compare_finite. apply Z.compare_refl. Qed.

Lemma compare_finite_Eq_trans (z1 e1 z2 e2 z3 e3 : Z) :
  compare_finite z1 e1 z2 e2 = Eq ->
  compare_finite z2 e2 z3 e3 = Eq ->
  compare_finite z1 e1 z3 e3 = Eq.
Proof.
  set (k := Z.min e1 (Z.min e2 e3)).
  rewrite <- (compare_finite_shift z1 e1 z2 e2 k) by (subst k; lia).
  rewrite <- (compare_finite_shift z2 e2 z3 e3 k) by (subst k; lia).
  rewrite <- (compare_finite_shift z1 e1 z3 e3 k) by (subst k; lia).
  rewrite !Z.compare_eq_iff. congruence.
Qed.

Lemma compare_antisym (x y : BigNumber) :
  compare y x = option_map CompOpp (compare x y).
Proof.
  destruct x as [| n1 | n1 c1 e1], y as [| n2 | n2 c2 e2]; simpl;
    try reflexivity.
  - destruct n1, n2; reflexivity.
  - destruct n1; reflexivity.
  - destruct n2; reflexivity.
  - f_equal. apply compare_finite_antisym.
Qed.

Lemma compare_Eq_sym (x y : BigNumber) :
  compare x y = Some Eq -> compare y x = Some Eq.
Proof. intros H. rewrite compare_antisym, H. reflexivity. Qed.

Lemma compare_Eq_trans (x y z : BigNumber) :
  compare x y = Some Eq -> compare y z = Some Eq -> compare x z = Some Eq.
Proof.
  destruct x as [| n1 | n1 c1 e1], y as [| n2 | n2 c2 e2],
    z as [| n3 | n3 c3 e3]; simpl; try discriminate;
    try (destruct n1, n2, n3; simpl; congruence);
    try (destruct n1, n2; simpl; congruence);
    try (destruct n2, n3; simpl; congruence);
    try (destruct n1; simpl; congruence);
    try (destruct n2; simpl; congruence).
  intros H1 H2. f_equal.
  injection H1 as H1. injection H2 as H2.
  eapply compare_finite_Eq_trans; eassumption.
Qed.

(** On finite values the comparison of the code is the order of the
    rationals. *)
Lemma compare_finite_le (n1 : bool) (c1 : N) (e1 : Z) (n2 : bool) (c2 : N) (e2 : Z) :
  compare_finite (signed n1 c1) e1 (signed n2 c2) e2 <> Gt <->
  (toQ n1 c1 e1 <= toQ n2 c2 e2)%Q.
Proof.
  unfold toQ, compare_finite.
  set (z1 := signed n1 c1). set (z2 := signed n2 c2).
  set (k := Z.min e1 e2).
  assert (H10 : ~ (inject_Z 10 == 0)%Q) by discriminate.
  assert (Hk : (0 < inject_Z 10 ^ k)%Q) by (apply Qpower_0_lt; reflexivity).
  assert (Hs : forall z e, k <= e ->
             (inject_Z z * inject_Z 10 ^ e ==
              inject_Z (z * 10 ^ (e - k)) * inject_Z 10 ^ k)%Q).
  { intros z e He.
    rewrite inject_Z_mult, Zpower_Qpower by lia.
    rewrite <- Qmult_assoc, <- Qpower_plus by exact H10.
    replace (e - k + k) with e by lia. reflexivity. }
  rewrite (Hs z1 e1), (Hs z2 e2) by (subst k; lia).
  rewrite Qmult_le_r by exact Hk.
  rewrite <- Zle_Qle. reflexivity.
Qed.

(** [isLessThanOrEqualTo] decides the order of the specification. *)
Lemma isLessThanOrEqualTo_spec (x y : BigNumber) :
  isLessThanOrEqualTo x y = true <-> decimal_le x y.
Proof.
  unfold isLessThanOrEqualTo.
  destruct x as [| n1 | n1 c1 e1], y as [| n2 | n2 c2 e2]; simpl;
    try (split; [discriminate | tauto]).
  - destruct n1; split; (discriminate || tauto).
  - destruct n1, n2; split; (discriminate || tauto || reflexivity).
  - destruct n1; split; (discriminate || tauto || reflexivity).
  - destruct n2; split; (discriminate || tauto || reflexivity).
  - rewrite <- compare_finite_le.
    destruct (compare_finite (signed n1 c1) e1 (signed n2 c2) e2);
      split; congruence.
Qed.

Lemma isZero_spec (x : BigNumber) : isZero x = true <-> is_zero_value x.
Proof.
  destruct x as [| n | n c e]; simpl; try (split; [discriminate | tauto]).
  unfold isZero; simpl. apply N.eqb_eq.
Qed.

End DecimalFacts.

(** ** Facts about values and [Set] *)

Module JSFacts.
Import Decimal JS Spec DecimalFacts.

Lemma number_equals_iff (x y : BigNumber) :
  number_equals x y = true <-> compare x y = Some Eq.
Proof.
  unfold number_equals.
  destruct (compare x y) as [[] |]; split; congruence.
Qed.

Lemma isNaN_compare (x y : BigNumber) :
  isNaN x = true -> compare x y = None /\ compare y x = None.
Proof. destruct x; try discriminate. destruct y; auto. Qed.

Lemma compare_refl (x : BigNumber) : isNaN x = false -> compare x x = Some Eq.
Proof.
  destruct x as [| n | n c e]; simpl; try discriminate; intros _.
  - destruct n; reflexivity.
  - rewrite compare_finite_refl. reflexivity.
Qed.

Lemma same_number_refl (x : BigNumber) :
  (isNaN x && isNaN x) || number_equals x x = true.
Proof.
  destruct (isNaN x) eqn:E; [reflexivity |].
  simpl. apply number_equals_iff, compare_refl, E.
Qed.

Lemma same_number_sym (x y : BigNumber) :
  (isNaN x && isNaN y) || number_equals x y = true ->
  (isNaN y && isNaN x) || number_equals y x = true.
Proof.
  rewrite !orb_true_iff, !andb_true_iff, !number_equals_iff.
  intros [[Hx Hy] | H]; [left; auto | right; apply compare_Eq_sym, H].
Qed.

Lemma same_number_trans (x y z : BigNumber) :
  (isNaN x && isNaN y) || number_equals x y = true ->
  (isNaN y && isNaN z) || number_equals y z = true ->
  (isNaN x && isNaN z) || number_equals x z = true.
Proof.
  rewrite !orb_true_iff, !andb_true_iff, !number_equals_iff.
  intros [[Hx Hy] | H1] [[Hy' Hz] | H2].
  - left; auto.
  - apply (isNaN_compare y z) in Hy as [Hy _]. congruence.
  - apply (isNaN_compare y x) in Hy' as [_ Hy']. congruence.
  - right. eapply compare_Eq_trans; eassumption.
Qed.

Lemma sameValueZero_refl (x : JSValue) : sameValueZero x x = true.
Proof.
  destruct x; simpl; auto using same_number_refl, Nat.eqb_refl, String.eqb_refl.
  destruct b; reflexivity.
Qed.

Lemma sameValueZero_sym (x y : JSValue) :
  sameValueZero x y = true -> sameValueZero y x = true.
Proof.
  destruct x, y; simpl; try discriminate; try reflexivity;
    rewrite ?Nat.eqb_eq, ?String.eqb_eq; try congruence.
  - destruct b, b0; auto.
  - apply same_number_sym.
Qed.

Lemma sameValueZero_trans (x y z : JSValue) :
  sameValueZero x y = true -> sameValueZero y z = true ->
  sameValueZero x z = true.
Proof.
  destruct x, y; simpl; try discriminate; destruct z; simpl;
    try discriminate; try reflexivity;
    rewrite ?Nat.eqb_eq, ?String.eqb_eq; try congruence.
  - destruct b, b0, b1; auto.
  - apply same_number_trans.
Qed.

#[export] Instance same_value_equivalence : Equivalence same_value.
Proof.
  split.
  - intros x. apply sameValueZero_refl.
  - intros x y. apply sameValueZero_sym.
  - intros x y z. apply sameValueZero_trans.
Qed.

Lemma sameValueZero_false_sym (x y : JSValue) :
  sameValueZero x y = false -> sameValueZero y x = false.
Proof.
  intros H. destruct (sameValueZero y x) eqn:E; [| reflexivity].
  apply sameValueZero_sym in E. congruence.
Qed.

(** [set.has(v)] is false exactly when no member is the same value. *)
Lemma has_false_iff (members : list JSValue) (v : JSValue) :
  existsb (sameValueZero v) members = false <-> ~ InA same_value v members.
Proof.
  rewrite InA_alt. split.
  - intros H [y [Hy Hin]].
    assert (existsb (sameValueZero v) members = true)
      by (apply existsb_exists; eauto).
    congruence.
  - intros H. destruct (existsb (sameValueZero v) members) eqn:E; [| reflexivity].
    apply existsb_exists in E as [y [Hin Hy]]. exfalso. apply H. eauto.
Qed.

(** A set grows by at most one member for each value it is offered. *)
Lemma Set_fold_length_le (l members : list JSValue) :
  (length (fold_left Set_add l members) <= length members + length l)%nat.
Proof.
  revert members. induction l as [| v l IH]; intros members; simpl; [lia |].
  specialize (IH (Set_add members v)). unfold Set_add in *.
  destruct (existsb (sameValueZero v) members);
    rewrite ?length_app in IH; simpl in IH; lia.
Qed.

(** It grows by one for each exactly when each value is new when it comes. *)
Lemma Set_fold_length_full (l members : list JSValue) :
  length (fold_left Set_add l members) = (length members + length l)%nat <->
  (forall v, InA same_value v l -> ~ InA same_value v members) /\
  NoDupA same_value l.
Proof.
  revert members. induction l as [| v l IH]; intros members; simpl.
  - split; [intros _ | lia]. split; [| constructor].
    intros v Hv. inversion Hv.
  - unfold Set_add at 2.
    destruct (existsb (sameValueZero v) members) eqn:E.
    + split.
      * intros H. pose proof (Set_fold_length_le l members). lia.
      * intros [H _]. exfalso.
        assert (Hnot : existsb (sameValueZero v) members = false).
        { apply has_false_iff, H. left. reflexivity. }
        congruence.
    + rewrite has_false_iff in E.
      replace (length members + S (length l))%nat
        with (length (members ++ [v]) + length l)%nat
        by (rewrite length_app; simpl; lia).
      rewrite IH. split.
      * intros [H Hnd]. split.
        -- intros w Hw Hin. inversion Hw as [? ? Hwv | ? ? Hwl]; subst.
           ++ apply E. rewrite <- Hwv. exact Hin.
           ++ apply (H w Hwl). apply InA_app_iff. left. exact Hin.
        -- constructor; [| exact Hnd].
           intros Hin. apply (H v Hin). apply InA_app_iff. right.
           left. reflexivity.
      * intros [H Hnd]. inversion Hnd as [| ? ? Hv Hl]; subst. split.
        -- intros w Hw Hin. apply InA_app_iff in Hin as [Hin | Hin].
           ++ apply (H w); [right; exact Hw | exact Hin].
           ++ inversion Hin as [? ? Hwv | ? ? Hnil]; subst; [| inversion Hnil].
              apply Hv. rewrite <- Hwv. exact Hw.
        -- exact Hl.
Qed.

(** The size of [new Set(l)] is the length of [l] exactly when [l] holds
    no duplicate. *)
Lemma Set_size_full_iff (l : list JSValue) :
  Set_size (Set_new l) = length l <-> no_duplicates l.
Proof.
  unfold Set_size, Set_new, no_duplicates.
  rewrite (Set_fold_length_full l []). simpl. split.
  - intros [_ H]. exact H.
  - intros H. split; [| exact H]. intros v _ Hin. inversion Hin.
Qed.

Lemma no_overlap_InA (l1 l2 : list JSValue) :
  no_overlap l1 l2 <->
  (forall x, InA same_value x l1 -> InA same_value x l2 -> False).
Proof.
  unfold no_overlap. split.
  - intros H x H1 H2.
    apply InA_alt in H1 as [a [Ha Hin1]]. apply InA_alt in H2 as [b [Hb Hin2]].
    assert (Hab : same_value a b) by (rewrite <- Ha; exact Hb).
    rewrite <- list_elem_of_In in Hin1, Hin2.
    specialize (H a b Hin1 Hin2). unfold same_value in Hab. congruence.
  - intros H x y Hx Hy.
    destruct (sameValueZero x y) eqn:E; [| reflexivity]. exfalso.
    apply (H x).
    + apply InA_alt. exists x. split; [reflexivity |].
      apply list_elem_of_In, Hx.
    + apply InA_alt. exists y. split; [exact E |].
      apply list_elem_of_In, Hy.
Qed.

(** A concatenation holds no duplicate exactly when neither part does and
    the parts do not overlap. *)
Lemma no_duplicates_app (l1 l2 : list JSValue) :
  no_duplicates (l1 ++ l2) <->
  no_duplicates l1 /\ no_duplicates l2 /\ no_overlap l1 l2.
Proof.
  rewrite no_overlap_InA. unfold no_duplicates. split.
  - induction l1 as [| a l1 IH]; simpl; intros H.
    + split; [constructor |]. split; [exact H |].
      intros x Hx. inversion Hx.
    + inversion H as [| ? ? Ha Hrest]; subst.
      destruct (IH Hrest) as [H1 [H2 H3]].
      split; [| split; [exact H2 |]].
      * constructor; [| exact H1].
        intros Hin. apply Ha, InA_app_iff. left. exact Hin.
      * intros x Hx1 Hx2. inversion Hx1 as [? ? Hxa | ? ? Hxl]; subst.
        -- apply Ha, InA_app_iff. right. rewrite <- Hxa. exact Hx2.
        -- exact (H3 x Hxl Hx2).
  - intros [H1 [H2 H3]]. apply NoDupA_app; try assumption.
    apply same_value_equivalence.
Qed.

(** What [new Set] builds is a set: no member occurs twice. *)
Lemma Set_add_no_duplicates (members : list JSValue) (v : JSValue) :
  no_duplicates members -> no_duplicates (Set_add members v).
Proof.
  intros H. unfold Set_add.
  destruct (existsb (sameValueZero v) members) eqn:E; [exact H |].
  apply has_false_iff in E.
  apply no_duplicates_app. split; [exact H |]. split.
  - constructor; [| constructor]. intros Hin. inversion Hin.
  - intros x y Hx Hy. apply list_elem_of_singleton in Hy. subst y.
    destruct (sameValueZero x v) eqn:Exv; [| reflexivity].
    exfalso. apply E, InA_alt. exists x. split.
    + apply sameValueZero_sym, Exv.
    + apply list_elem_of_In, Hx.
Qed.

Lemma Set_new_no_duplicates (l : list JSValue) : no_duplicates (Set_new l).
Proof.
  unfold Set_new.
  assert (H : forall members,
             no_duplicates members ->
             no_duplicates (fold_left Set_add l members)).
  { induction l as [| v l IH]; intros members Hm; simpl; [exact Hm |].
    apply IH, Set_add_no_duplicates, Hm. }
  apply H. constructor.
Qed.

(** On strings, being the same value is having the same content. *)
Lemma no_duplicates_strings (l : list string) :
  no_duplicates (map JSString l) <-> NoDup l.
Proof.
  unfold no_duplicates.
  assert (Hin : forall a l, InA same_value (JSString a) (map JSString l)
                            <-> a ∈ l).
  { intros a l'. rewrite InA_alt. split.
    - intros [y [Hy Hiny]]. apply in_map_iff in Hiny as [b [<- Hb]].
      unfold same_value in Hy. simpl in Hy. apply String.eqb_eq in Hy.
      subst b. apply list_elem_of_In, Hb.
    - intros Ha. exists (JSString a). split; [reflexivity |].
      apply in_map, list_elem_of_In, Ha. }
  induction l as [| a l IH]; simpl.
  - split; intros _; constructor.
  - rewrite NoDup_cons, <- IH, <- Hin. split.
    + intros H. inversion H; subst. auto.
    + intros [H1 H2]. constructor; assumption.
Qed.

End JSFacts.

(** ** The validators against the specification *)

Module ValidatorFacts.
Import Decimal JS Validators Spec DecimalFacts JSFacts.
Local Open Scope string_scope.

(** C2, as stated, fails: when the decorated field and the related field
    are both [undefined] the distinct-string check does not pass, although
    the claim lets it pass exactly then or for two different strings. *)
Lemma IsDifferentValue_both_undefined_rejected :
  ~ (IsDifferentValue "other" JSUndefined ∅ = Return true <->
     (JSUndefined = JSUndefined /\ get_property ∅ "other" = JSUndefined) \/
     (exists a b, JSUndefined = JSString a
                  /\ get_property ∅ "other" = JSString b /\ a <> b)).
Proof.
  intros [_ H].
  assert (Hboth : IsDifferentValue "other" JSUndefined ∅ = Return true).
  { apply H. left. split; reflexivity. }
  discriminate Hboth.
Qed.

(** C2, amended: on two fields that each hold a string or are [undefined],
    [IsDifferentValue] returns the verdict [differ], which is false when
    both are [undefined] or both hold the same string and true otherwise
    (one [undefined] beside a string, or two different strings); when
    either field holds anything else it throws the NotImplemented error
    instead of returning a verdict. *)
Theorem IsDifferentValue_verdict (property : string) (value : JSValue)
    (object : gmap string JSValue) :
  IsDifferentValue property value object =
  if string_or_undefined value
     && string_or_undefined (get_property object property)
  then Return (differ value (get_property object property))
  else Throw (ChainError NOT_IMPLEMENTED IsDifferentValue_message).
Proof.
  unfold IsDifferentValue.
  destruct value, (get_property object property); reflexivity.
Qed.


(** C6: [IsNonZeroBigNumber] returns true exactly on a Decimal Value
    instance that is not a zero; the decimals read from "0" and "0.0" fail,
    and so does every plain string. *)
Theorem IsNonZeroBigNumber_iff (value : JSValue) :
  (IsNonZeroBigNumber value = true <->
   exists ref bn, value = JSBigNumber ref bn /\ ~ is_zero_value bn)
  /\ (forall ref, IsNonZeroBigNumber (JSBigNumber ref (of_string "0")) = false)
  /\ (forall ref, IsNonZeroBigNumber (JSBigNumber ref (of_string "0.0")) = false)
  /\ (forall str, IsNonZeroBigNumber (JSString str) = false).
Proof.
  split; [| repeat split; reflexivity].
  split.
  - destruct value; simpl; try discriminate.
    intros H. exists ref, bn. split; [reflexivity |].
    rewrite <- isZero_spec. destruct (isZero bn); [discriminate | congruence].
  - intros [ref [bn [-> H]]]. simpl.
    rewrite <- isZero_spec in H. destruct (isZero bn); [congruence | reflexivity].
Qed.

(** C9: a zero of positive sign passes [BigNumberIsPositive], whatever its
    exponent, because [isPositive] looks at the sign only; the decimal read
    from "0" is such a zero. *)
Theorem BigNumberIsPositive_accepts_zero (ref : nat) (e : Z) :
  is_zero_value (BN_Finite false 0 e)
  /\ BigNumberIsPositive (JSBigNumber ref (BN_Finite false 0 e)) = true
  /\ BigNumberIsPositive (JSBigNumber ref (of_string "0")) = true.
Proof. repeat split. Qed.

Section Runtime.

Variable ToString : JSValue -> Completion string.


(** C8: for a related field holding the sequence [A] and a decorated field
    holding [B], [ArrayUniqueConcat] returns a verdict, which is true
    exactly when the set built from [A] followed by [B] has as many members
    as [A] and [B] have elements together, that is, when neither sequence
    holds a duplicate and they have no element in common. *)
Theorem ArrayUniqueConcat_iff (property : string) (A B : list JSValue)
    (object : gmap string JSValue) (ref : nat) :
  get_property object property = JSArray ref A ->
  exists verdict,
    ArrayUniqueConcat ToString property B object = Return verdict
    /\ (verdict = true <->
        Set_size (Set_new (A ++ B)) = (length A + length B)%nat)
    /\ (verdict = true <->
        no_duplicates A /\ no_duplicates B /\ no_overlap A B).
Proof.
  intros Hrel. unfold ArrayUniqueConcat. rewrite Hrel. simpl.
  eexists. split; [reflexivity |].
  assert (Hsize : Nat.eqb (Set_size (Set_new (A ++ B))) (length A + length B)
                  = true <->
                  Set_size (Set_new (A ++ B)) = (length A + length B)%nat)
    by apply Nat.eqb_eq.
  split; [exact Hsize |].
  rewrite Hsize, <- length_app, Set_size_full_iff.
  apply no_duplicates_app.
Qed.

(** C10: [ArrayUniqueConcat] does not always return a verdict: when the
    related field is [undefined], [null] or any other value without a
    [concat] method, it throws a TypeError. *)
Theorem ArrayUniqueConcat_throws (property : string) (value : list JSValue)
    (object : gmap string JSValue) :
  has_concat (get_property object property) = false ->
  exists message,
    ArrayUniqueConcat ToString property value object = Throw (TypeError message).
Proof.
  intros H. unfold ArrayUniqueConcat.
  destruct (get_property object property); simpl in *;
    try discriminate; eexists; reflexivity.
Qed.

End Runtime.

Lemma ArrayUniqueConcat_iff_witness :
  get_property {[ "from" := JSArray 1 [JSString "a"] ]} "from"
    = JSArray 1 [JSString "a"]
  /\ exists verdict,
    ArrayUniqueConcat (fun _ => Return "[object Object]") "from"
      [JSString "b"; JSString "c"] {[ "from" := JSArray 1 [JSString "a"] ]}
    = Return verdict
    /\ (verdict = true <->
        Set_size (Set_new ([JSString "a"] ++ [JSString "b"; JSString "c"]))
        = (length [JSString "a"] + length [JSString "b"; JSString "c"])%nat)
    /\ (verdict = true <->
        no_duplicates [JSString "a"]
        /\ no_duplicates [JSString "b"; JSString "c"]
        /\ no_overlap [JSString "a"] [JSString "b"; JSString "c"]).
Proof.
  split; [reflexivity |].
  apply (ArrayUniqueConcat_iff (fun _ => Return "[object Object]") "from"
           [JSString "a"] [JSString "b"; JSString "c"]
           {[ "from" := JSArray 1 [JSString "a"] ]} 1).
  reflexivity.
Defined.

Lemma ArrayUniqueConcat_throws_witness :
  has_concat (get_property ∅ "from") = false
  /\ exists message,
    ArrayUniqueConcat (fun _ => Return "[object Object]") "from"
      [JSString "a"] ∅ = Throw (TypeError message).
Proof.
  split; [reflexivity |].
  apply (ArrayUniqueConcat_throws (fun _ => Return "[object Object]") "from"
           [JSString "a"] ∅).
  reflexivity.
Defined.

End ValidatorFacts.

(** ** The authority registry against the specification *)

Module AuthorityFacts.
Import Authorities.
Local Open Scope string_scope.

(** *** The Authority Set *)

Lemma addAuthority_present (this : LaunchpadBatchSubmitAuthorities) (user : string) :
  user ∈ authorities this -> addAuthority this user = this.
Proof.
  intros H. unfold addAuthority. rewrite bool_decide_eq_true_2 by exact H.
  reflexivity.
Qed.

Lemma addAuthority_absent (this : LaunchpadBatchSubmitAuthorities) (user : string) :
  user ∉ authorities this ->
  addAuthority this user = {| authorities := authorities this ++ [user] |}.
Proof.
  intros H. unfold addAuthority. rewrite bool_decide_eq_false_2 by exact H.
  reflexivity.
Qed.

Lemma addAuthority_elem_of (this : LaunchpadBatchSubmitAuthorities) (user p : string) :
  p ∈ authorities (addAuthority this user) <-> p ∈ authorities this \/ p = user.
Proof.
  destruct (decide (user ∈ authorities this)) as [Hin | Hnot].
  - rewrite addAuthority_present by exact Hin. split; [auto |].
    intros [H | ->]; assumption.
  - rewrite addAuthority_absent by exact Hnot. simpl.
    rewrite elem_of_app, list_elem_of_singleton. reflexivity.
Qed.

Lemma addAuthority_NoDup (this : LaunchpadBatchSubmitAuthorities) (user : string) :
  NoDup (authorities this) -> NoDup (authorities (addAuthority this user)).
Proof.
  intros Hnd. destruct (decide (user ∈ authorities this)) as [Hin | Hnot].
  - rewrite addAuthority_present by exact Hin. exact Hnd.
  - rewrite addAuthority_absent by exact Hnot. simpl.
    apply NoDup_app. split; [exact Hnd |]. split.
    + intros x Hx Hx'. apply list_elem_of_singleton in Hx'. subst. auto.
    + apply NoDup_singleton.
Qed.

Lemma fold_addAuthority_NoDup (users : list string)
    (this : LaunchpadBatchSubmitAuthorities) :
  NoDup (authorities this) ->
  NoDup (authorities (fold_left addAuthority users this)).
Proof.
  revert this. induction users as [| u users IH]; intros this H; simpl.
  - exact H.
  - apply IH, addAuthority_NoDup, H.
Qed.

Lemma fold_addAuthority_elem_of (users : list string)
    (this : LaunchpadBatchSubmitAuthorities) (p : string) :
  p ∈ authorities (fold_left addAuthority users this) <->
  p ∈ authorities this \/ p ∈ users.
Proof.
  revert this. induction users as [| u users IH]; intros this; simpl.
  - rewrite elem_of_nil. tauto.
  - rewrite IH, addAuthority_elem_of, elem_of_cons. tauto.
Qed.

(** Adding principals that are all present changes nothing. *)
Lemma fold_addAuthority_present (users : list string)
    (this : LaunchpadBatchSubmitAuthorities) :
  (forall u, u ∈ users -> u ∈ authorities this) ->
  fold_left addAuthority users this = this.
Proof.
  induction users as [| u users IH]; intros H; simpl; [reflexivity |].
  rewrite addAuthority_present by (apply H; left).
  apply IH. intros v Hv. apply H. right. exact Hv.
Qed.

Lemma removeAuthority_NoDup (this : LaunchpadBatchSubmitAuthorities) (user : string) :
  NoDup (authorities this) -> NoDup (authorities (removeAuthority this user)).
Proof. intros H. simpl. apply NoDup_filter, H. Qed.

Lemma NoDup_count_one (l : list string) (p : string) :
  NoDup l -> p ∈ l -> count_occ String.string_dec l p = 1%nat.
Proof.
  intros Hnd Hin.
  apply list_elem_of_In in Hin.
  apply (count_occ_In String.string_dec) in Hin.
  apply NoDup_ListNoDup in Hnd.
  pose proof (proj1 (NoDup_count_occ String.string_dec l) Hnd p).
  lia.
Qed.

Section Registry.

Variable INDEX_KEY : string.

(** *** What each function does on a ledger with and without the record *)

Lemma authorize_absent (ctx : GalaChainContext) (dto : AuthorizeBatchSubmitterDto) :
  state ctx !! (registry_key INDEX_KEY) = None ->
  authorizeLaunchpadBatchSubmitter INDEX_KEY ctx dto =
  let authorities :=
    fold_left addAuthority (authorize_authorities dto) {| authorities := [] |} in
  Return ({| res_authorities := getAuthorities authorities |},
          {| state := <[(registry_key INDEX_KEY) := authorities]> (state ctx);
             callingUser := callingUser ctx |}).
Proof.
  intros H. unfold authorizeLaunchpadBatchSubmitter, getObjectByKey.
  rewrite H. reflexivity.
Qed.

Lemma authorize_present (ctx : GalaChainContext) (dto : AuthorizeBatchSubmitterDto)
    (stored : LaunchpadBatchSubmitAuthorities) :
  state ctx !! (registry_key INDEX_KEY) = Some stored ->
  authorizeLaunchpadBatchSubmitter INDEX_KEY ctx dto =
  let authorities :=
    fold_left addAuthority (authorize_authorities dto) stored in
  Return ({| res_authorities := getAuthorities authorities |},
          {| state := <[(registry_key INDEX_KEY) := authorities]> (state ctx);
             callingUser := callingUser ctx |}).
Proof.
  intros H. unfold authorizeLaunchpadBatchSubmitter, getObjectByKey.
  rewrite H. reflexivity.
Qed.

Lemma deauthorize_present (ctx : GalaChainContext) (dto : DeauthorizeBatchSubmitterDto)
    (stored : LaunchpadBatchSubmitAuthorities) :
  state ctx !! (registry_key INDEX_KEY) = Some stored ->
  deauthorizeLaunchpadBatchSubmitter INDEX_KEY ctx dto =
  let authorities := removeAuthority stored (deauthorize_authority dto) in
  Return ({| res_authorities := getAuthorities authorities |},
          {| state := <[(registry_key INDEX_KEY) := authorities]> (state ctx);
             callingUser := callingUser ctx |}).
Proof.
  intros H.
  unfold deauthorizeLaunchpadBatchSubmitter,
    fetchLaunchpadBatchSubmitAuthorities, getObjectByKey.
  rewrite H. reflexivity.
Qed.

(** *** The invariant is kept *)

Lemma authorize_keeps_invariant (ctx ctx' : GalaChainContext)
    (dto : AuthorizeBatchSubmitterDto) (res : BatchSubmitAuthoritiesResDto) :
  no_duplicate_authorities INDEX_KEY ctx ->
  authorizeLaunchpadBatchSubmitter INDEX_KEY ctx dto = Return (res, ctx') ->
  no_duplicate_authorities INDEX_KEY ctx'.
Proof.
  intros Hinv Hrun object Hlook.
  destruct (state ctx !! (registry_key INDEX_KEY)) as [stored |] eqn:E.
  - rewrite (authorize_present _ _ _ E) in Hrun. simpl in Hrun.
    injection Hrun as _ <-. simpl in Hlook.
    rewrite lookup_insert_eq in Hlook. injection Hlook as <-.
    apply fold_addAuthority_NoDup, Hinv, E.
  - rewrite (authorize_absent _ _ E) in Hrun. simpl in Hrun.
    injection Hrun as _ <-. simpl in Hlook.
    rewrite lookup_insert_eq in Hlook. injection Hlook as <-.
    apply fold_addAuthority_NoDup. simpl. apply NoDup_nil_2.
Qed.

Lemma deauthorize_keeps_invariant (ctx ctx' : GalaChainContext)
    (dto : DeauthorizeBatchSubmitterDto) (res : BatchSubmitAuthoritiesResDto) :
  no_duplicate_authorities INDEX_KEY ctx ->
  deauthorizeLaunchpadBatchSubmitter INDEX_KEY ctx dto = Return (res, ctx') ->
  no_duplicate_authorities INDEX_KEY ctx'.
Proof.
  intros Hinv Hrun object Hlook.
  destruct (state ctx !! (registry_key INDEX_KEY)) as [stored |] eqn:E.
  - rewrite (deauthorize_present _ _ _ E) in Hrun. simpl in Hrun.
    injection Hrun as _ <-. simpl in Hlook.
    rewrite lookup_insert_eq in Hlook. injection Hlook as <-.
    apply NoDup_filter, Hinv, E.
  - unfold deauthorizeLaunchpadBatchSubmitter,
      fetchLaunchpadBatchSubmitAuthorities, getObjectByKey in Hrun.
    rewrite E in Hrun. discriminate Hrun.
Qed.

(** Every ledger the registry can be in satisfies the invariant. *)
Lemma reachable_no_duplicates (ctx : GalaChainContext) :
  reachable INDEX_KEY ctx -> no_duplicate_authorities INDEX_KEY ctx.
Proof.
  induction 1 as [user | ctx user _ IH | ctx ctx' dto res _ IH Hrun
                  | ctx ctx' dto res _ IH Hrun].
  - intros object H. simpl in H. rewrite lookup_empty in H. discriminate H.
  - exact IH.
  - exact (authorize_keeps_invariant ctx ctx' dto res IH Hrun).
  - exact (deauthorize_keeps_invariant ctx ctx' dto res IH Hrun).
Qed.

(** *** The claims *)

(** C1, amended: on a ledger where the Authority Set record was never
    written, [isAuthorizedForLaunchpadBatchSubmit] signals the NotFound
    error of the fetch; it absorbs nothing. *)
Theorem isAuthorized_absent_throws (ctx : GalaChainContext) :
  state ctx !! (registry_key INDEX_KEY) = None ->
  isAuthorizedForLaunchpadBatchSubmit INDEX_KEY ctx
  = Throw (ChainError NOT_FOUND (registry_key INDEX_KEY)).
Proof.
  intros H.
  unfold isAuthorizedForLaunchpadBatchSubmit,
    fetchLaunchpadBatchSubmitAuthorities, getObjectByKey.
  rewrite H. reflexivity.
Qed.

(** With the record in place the answer is the membership of the caller. *)
Lemma isAuthorized_present (ctx : GalaChainContext)
    (stored : LaunchpadBatchSubmitAuthorities) :
  state ctx !! (registry_key INDEX_KEY) = Some stored ->
  isAuthorizedForLaunchpadBatchSubmit INDEX_KEY ctx
  = Return (bool_decide (callingUser ctx ∈ authorities stored)).
Proof.
  intros H.
  unfold isAuthorizedForLaunchpadBatchSubmit,
    fetchLaunchpadBatchSubmitAuthorities, getObjectByKey.
  rewrite H. reflexivity.
Qed.


(** C4: authorize is idempotent.  From a ledger whose record lists no
    principal twice (or has no record), authorizing [p] succeeds and
    authorizing [p] again returns the same set and leaves the same ledger;
    the set holds [p] exactly once; and when [p] was already listed the
    first call changes neither the set nor the ledger. *)
Theorem authorize_idempotent (ctx : GalaChainContext) (p : string) :
  no_duplicate_authorities INDEX_KEY ctx ->
  exists res ctx1,
    authorizeLaunchpadBatchSubmitter INDEX_KEY ctx
      {| authorize_authorities := [p] |} = Return (res, ctx1)
    /\ authorizeLaunchpadBatchSubmitter INDEX_KEY ctx1
         {| authorize_authorities := [p] |} = Return (res, ctx1)
    /\ count_occ String.string_dec (res_authorities res) p = 1%nat
    /\ (forall stored,
          state ctx !! (registry_key INDEX_KEY) = Some stored -> p ∈ authorities stored ->
          res_authorities res = authorities stored /\ state ctx1 = state ctx).
Proof.
  intros Hinv.
  assert (Hstep : forall start,
    NoDup (authorities start) ->
    (state ctx !! (registry_key INDEX_KEY) = Some start \/
     (state ctx !! (registry_key INDEX_KEY) = None /\ start = {| authorities := [] |})) ->
    exists res ctx1,
      authorizeLaunchpadBatchSubmitter INDEX_KEY ctx
        {| authorize_authorities := [p] |} = Return (res, ctx1)
      /\ authorizeLaunchpadBatchSubmitter INDEX_KEY ctx1
           {| authorize_authorities := [p] |} = Return (res, ctx1)
      /\ count_occ String.string_dec (res_authorities res) p = 1%nat
      /\ res_authorities res = authorities (addAuthority start p)
      /\ state ctx1 = <[(registry_key INDEX_KEY) := addAuthority start p]> (state ctx)).
  { intros start Hnd Hstart.
    assert (Hfirst : authorizeLaunchpadBatchSubmitter INDEX_KEY ctx
                       {| authorize_authorities := [p] |}
                     = Return ({| res_authorities :=
                                    authorities (addAuthority start p) |},
                               {| state := <[(registry_key INDEX_KEY) := addAuthority start p]> (state ctx);
                                  callingUser := callingUser ctx |})).
    { destruct Hstart as [E | [E ->]].
      - rewrite (authorize_present _ _ _ E). reflexivity.
      - rewrite (authorize_absent _ _ E). reflexivity. }
    eexists _, _. split; [exact Hfirst |].
    assert (Hp : p ∈ authorities (addAuthority start p))
      by (apply addAuthority_elem_of; right; reflexivity).
    split; [| split; [| split; reflexivity]].
    - erewrite authorize_present by (simpl; apply lookup_insert_eq).
      simpl. rewrite (addAuthority_present _ _ Hp), insert_insert_eq.
      reflexivity.
    - simpl. apply NoDup_count_one; [| exact Hp].
      apply addAuthority_NoDup, Hnd. }
  destruct (state ctx !! (registry_key INDEX_KEY)) as [start |] eqn:E.
  - destruct (Hstep start (Hinv start E) (or_introl eq_refl))
      as (res & ctx1 & H1 & H2 & H3 & H4 & H5).
    exists res, ctx1. repeat (split; [assumption |]).
    intros stored Hs Hin. injection Hs as <-.
    rewrite H4, H5, (addAuthority_present _ _ Hin).
    split; [reflexivity |]. apply insert_id, E.
  - destruct (Hstep {| authorities := [] |} (NoDup_nil_2 (A := string))
                (or_intror (conj eq_refl eq_refl)))
      as (res & ctx1 & H1 & H2 & H3 & H4 & H5).
    exists res, ctx1. repeat (split; [assumption |]).
    intros stored Hs. discriminate Hs.
Qed.

End Registry.

(** The scenario of the specification, run on the ledger that never saw a
    write: authorize alice, authorize bob, deauthorize alice. *)
Example registry_scenario :
  exists r1 ctx1 r2 ctx2 r3 ctx3,
    authorizeLaunchpadBatchSubmitter "GCLPBSA"
      {| state := ∅; callingUser := "admin" |}
      {| authorize_authorities := ["alice"] |} = Return (r1, ctx1)
    /\ getLaunchpadBatchSubmitAuthorities "GCLPBSA" ctx1
         Build_FetchBatchSubmitAuthoritiesDto
       = Return {| res_authorities := ["alice"] |}
    /\ authorizeLaunchpadBatchSubmitter "GCLPBSA" ctx1
         {| authorize_authorities := ["bob"] |} = Return (r2, ctx2)
    /\ getLaunchpadBatchSubmitAuthorities "GCLPBSA" ctx2
         Build_FetchBatchSubmitAuthoritiesDto
       = Return {| res_authorities := ["alice"; "bob"] |}
    /\ deauthorizeLaunchpadBatchSubmitter "GCLPBSA" ctx2
         {| deauthorize_authority := "alice" |} = Return (r3, ctx3)
    /\ getLaunchpadBatchSubmitAuthorities "GCLPBSA" ctx3
         Build_FetchBatchSubmitAuthoritiesDto
       = Return {| res_authorities := ["bob"] |}
    /\ isAuthorizedForLaunchpadBatchSubmit "GCLPBSA"
         {| state := state ctx3; callingUser := "alice" |} = Return false
    /\ isAuthorizedForLaunchpadBatchSubmit "GCLPBSA"
         {| state := state ctx3; callingUser := "bob" |} = Return true.
Proof.
  do 6 eexists.
  split; [reflexivity |]. split; [reflexivity |].
  split; [reflexivity |]. split; [reflexivity |].
  split; [reflexivity |]. split; [reflexivity |].
  split; reflexivity.
Qed.

(** C1, as stated, fails: on the ledger that never saw a write, the check
    does not return false; the NotFound error reaches the caller. *)
Lemma isAuthorized_absent_not_false :
  state {| state := ∅; callingUser := "alice" |}
    !! createCompositeKey "GCLPBSA" [] = None
  /\ isAuthorizedForLaunchpadBatchSubmit "GCLPBSA"
       {| state := ∅; callingUser := "alice" |} <> Return false.
Proof. split; [reflexivity | discriminate]. Qed.

Lemma isAuthorized_absent_throws_witness :
  state {| state := ∅; callingUser := "alice" |}
    !! createCompositeKey "GCLPBSA" [] = None
  /\ isAuthorizedForLaunchpadBatchSubmit "GCLPBSA"
       {| state := ∅; callingUser := "alice" |}
     = Throw (ChainError NOT_FOUND (createCompositeKey "GCLPBSA" [])).
Proof.
  split; [reflexivity |].
  apply (isAuthorized_absent_throws "GCLPBSA"
           {| state := ∅; callingUser := "alice" |}).
  reflexivity.
Defined.


Lemma authorize_idempotent_witness :
  no_duplicate_authorities "GCLPBSA"
    {| state := {[ createCompositeKey "GCLPBSA" [] :=
                     {| authorities := ["alice"] |} ]};
       callingUser := "alice" |}
  /\ exists res ctx1,
    authorizeLaunchpadBatchSubmitter "GCLPBSA"
      {| state := {[ createCompositeKey "GCLPBSA" [] :=
                       {| authorities := ["alice"] |} ]};
         callingUser := "alice" |}
      {| authorize_authorities := ["bob"] |} = Return (res, ctx1)
    /\ authorizeLaunchpadBatchSubmitter "GCLPBSA" ctx1
         {| authorize_authorities := ["bob"] |} = Return (res, ctx1)
    /\ count_occ String.string_dec (res_authorities res) "bob" = 1%nat
    /\ (forall stored,
          state {| state := {[ createCompositeKey "GCLPBSA" [] :=
                                 {| authorities := ["alice"] |} ]};
                   callingUser := "alice" |}
            !! createCompositeKey "GCLPBSA" [] = Some stored ->
          "bob" ∈ authorities stored ->
          res_authorities res = authorities stored
          /\ state ctx1
             = state {| state := {[ createCompositeKey "GCLPBSA" [] :=
                                      {| authorities := ["alice"] |} ]};
                        callingUser := "alice" |}).
Proof.
  assert (Hinv : no_duplicate_authorities "GCLPBSA"
    {| state := {[ createCompositeKey "GCLPBSA" [] :=
                     {| authorities := ["alice"] |} ]};
       callingUser := "alice" |}).
  { intros object H. simpl in H. rewrite lookup_singleton_eq in H.
    injection H as <-. simpl. apply NoDup_singleton. }
  split; [exact Hinv |].
  apply (authorize_idempotent "GCLPBSA" _ "bob" Hinv).
Defined.

End AuthorityFacts.

(** ** The other validators: what the code guarantees *)

Module MoreFacts.
Import Decimal JS Validators Spec DecimalFacts JSFacts MoreValidators.
Local Open Scope string_scope.
Local Open Scope Z_scope.

(** *** The order on decimal values *)

Lemma decimal_le_trans (x y z : BigNumber) :
  decimal_le x y -> decimal_le y z -> decimal_le x z.
Proof.
  destruct x as [| n1 | n1 c1 e1], y as [| n2 | n2 c2 e2],
    z as [| n3 | n3 c3 e3]; simpl; try tauto;
    try (destruct n1; tauto); try (destruct n2; tauto);
    try (destruct n3; tauto);
    try (destruct n1, n2; tauto); try (destruct n2, n3; tauto);
    try (destruct n1, n3; tauto).
  apply Qle_trans.
Qed.

Lemma decimal_le_refl (x : BigNumber) : isNaN x = false -> decimal_le x x.
Proof.
  destruct x as [| n | n c e]; simpl; try discriminate; intros _.
  - destruct n; exact I.
  - apply Qle_refl.
Qed.

Lemma decimal_le_total (x y : BigNumber) :
  isNaN x = false -> isNaN y = false -> decimal_le x y \/ decimal_le y x.
Proof.
  destruct x as [| n1 | n1 c1 e1], y as [| n2 | n2 c2 e2]; simpl;
    try discriminate; intros _ _.
  - destruct n1, n2; tauto.
  - destruct n1; tauto.
  - destruct n2; tauto.
  - destruct (Qlt_le_dec (toQ n1 c1 e1) (toQ n2 c2 e2)) as [H | H].
    + left. apply Qlt_le_weak, H.
    + right. exact H.
Qed.

Lemma decimal_le_NaN (x y : BigNumber) :
  decimal_le x y -> isNaN x = false /\ isNaN y = false.
Proof.
  destruct x as [| n1 | n1 c1 e1], y as [| n2 | n2 c2 e2]; simpl;
    try tauto; try (destruct n1; tauto).
Qed.

(** [<] on numbers decides the strict order. *)
Lemma less_than_spec (x y : BigNumber) :
  less_than x y = true <-> decimal_lt x y.
Proof.
  unfold decimal_lt. rewrite <- !isLessThanOrEqualTo_spec.
  unfold less_than, isLessThanOrEqualTo.
  rewrite (compare_antisym x y).
  destruct (compare x y) as [[] |]; simpl;
    (split; [intros H | intros [H1 H2]]);
    try discriminate; try reflexivity;
    try (split; [reflexivity | discriminate]);
    exfalso; apply H2; reflexivity.
Qed.

(** *** BigNumberLessThanOrEqualOther *)

(** X1: the cross-field bound passes exactly when both fields hold Decimal
    Value instances and the decorated one is less than or equal to the
    related one; any other value on either side fails. *)
Theorem BigNumberLessThanOrEqualOther_iff (property : string) (value : JSValue)
    (object : gmap string JSValue) :
  BigNumberLessThanOrEqualOther property value object = true <->
  exists r1 a r2 b,
    value = JSBigNumber r1 a
    /\ get_property object property = JSBigNumber r2 b
    /\ decimal_le a b.
Proof.
  unfold BigNumberLessThanOrEqualOther. split.
  - destruct value as [| | | | | r1 a | |]; try discriminate.
    destruct (get_property object property) as [| | | | | r2 b | |];
      try discriminate.
    intros H. exists r1, a, r2, b.
    rewrite <- isLessThanOrEqualTo_spec. auto.
  - intros (r1 & a & r2 & b & -> & -> & H).
    apply isLessThanOrEqualTo_spec, H.
Qed.

(** X2: of two fields that hold Decimal Value instances, at least one is
    accepted as less than or equal to the other, unless one of them is
    not-a-number, in which case the check fails in both directions. *)
Theorem BigNumberLessThanOrEqualOther_total (f g : string) (r1 r2 : nat)
    (a b : BigNumber) (object : gmap string JSValue) :
  object !! f = Some (JSBigNumber r1 a) ->
  object !! g = Some (JSBigNumber r2 b) ->
  BigNumberLessThanOrEqualOther g (JSBigNumber r1 a) object
  || BigNumberLessThanOrEqualOther f (JSBigNumber r2 b) object
  = negb (isNaN a || isNaN b).
Proof.
  intros Hf Hg. unfold BigNumberLessThanOrEqualOther, get_property.
  rewrite Hf, Hg. simpl.
  destruct (isNaN a) eqn:Ea.
  - destruct (isNaN_compare a b Ea) as [H1 H2].
    unfold isLessThanOrEqualTo. rewrite H1, H2. reflexivity.
  - destruct (isNaN b) eqn:Eb.
    + destruct (isNaN_compare b a Eb) as [H1 H2].
      unfold isLessThanOrEqualTo. rewrite H1, H2. reflexivity.
    + simpl. apply orb_true_iff.
      destruct (decimal_le_total a b Ea Eb) as [H | H];
        [left | right]; apply isLessThanOrEqualTo_spec, H.
Qed.

Section Runtime.

Variable ToString : JSValue -> Completion string.

(** X3: the two bounds compose.  When a field is accepted as less than or
    equal to a related field, and the related field passes
    [BigNumberMax] for some bound, the field passes [BigNumberMax] for
    that bound too. *)
Theorem BigNumberMax_through_related (property : string) (value : JSValue)
    (object : gmap string JSValue) (max : BigNumber) :
  BigNumberLessThanOrEqualOther property value object = true ->
  BigNumberMax_validate ToString max (get_property object property) = true ->
  BigNumberMax_validate ToString max value = true.
Proof.
  unfold BigNumberLessThanOrEqualOther, BigNumberMax_validate.
  destruct value as [| | | | | r1 a | |]; try discriminate.
  destruct (get_property object property) as [| | | | | r2 b | |];
    try discriminate.
  simpl. rewrite !isLessThanOrEqualTo_spec. apply decimal_le_trans.
Qed.

(** X4: [BigNumberMax] is monotone in its bound: a value that passes for
    a bound passes for every larger bound. *)
Theorem BigNumberMax_monotone (max1 max2 : BigNumber) (value : JSValue) :
  BigNumberMax_validate ToString max1 value = true ->
  decimal_le max1 max2 ->
  BigNumberMax_validate ToString max2 value = true.
Proof.
  unfold BigNumberMax_validate.
  destruct (BigNumber_new ToString value) as [bn | e]; simpl;
    [| discriminate].
  rewrite !isLessThanOrEqualTo_spec. apply decimal_le_trans.
Qed.

End Runtime.

Lemma BigNumberLessThanOrEqualOther_total_witness :
  ({[ "low" := JSBigNumber 1 (BN_Finite false 5 0);
      "high" := JSBigNumber 2 (BN_Finite false 75 (-1)) ]}
     : gmap string JSValue) !! "low"
  = Some (JSBigNumber 1 (BN_Finite false 5 0))
  /\ ({[ "low" := JSBigNumber 1 (BN_Finite false 5 0);
         "high" := JSBigNumber 2 (BN_Finite false 75 (-1)) ]}
        : gmap string JSValue) !! "high"
     = Some (JSBigNumber 2 (BN_Finite false 75 (-1)))
  /\ BigNumberLessThanOrEqualOther "high" (JSBigNumber 1 (BN_Finite false 5 0))
       {[ "low" := JSBigNumber 1 (BN_Finite false 5 0);
          "high" := JSBigNumber 2 (BN_Finite false 75 (-1)) ]}
     || BigNumberLessThanOrEqualOther "low"
          (JSBigNumber 2 (BN_Finite false 75 (-1)))
          {[ "low" := JSBigNumber 1 (BN_Finite false 5 0);
             "high" := JSBigNumber 2 (BN_Finite false 75 (-1)) ]}
     = negb (isNaN (BN_Finite false 5 0) || isNaN (BN_Finite false 75 (-1))).
Proof.
  split; [reflexivity |]. split; [reflexivity |].
  apply (BigNumberLessThanOrEqualOther_total "low" "high" 1 2
           (BN_Finite false 5 0) (BN_Finite false 75 (-1))); reflexivity.
Defined.

Lemma BigNumberMax_through_related_witness :
  BigNumberLessThanOrEqualOther "cap" (JSBigNumber 1 (BN_Finite false 5 0))
    {[ "cap" := JSBigNumber 2 (BN_Finite false 75 (-1)) ]} = true
  /\ BigNumberMax_validate (fun _ => Return "[object Object]")
       (BN_Finite false 100 0)
       (get_property {[ "cap" := JSBigNumber 2 (BN_Finite false 75 (-1)) ]} "cap")
     = true
  /\ BigNumberMax_validate (fun _ => Return "[object Object]")
       (BN_Finite false 100 0) (JSBigNumber 1 (BN_Finite false 5 0)) = true.
Proof.
  split; [reflexivity |]. split; [reflexivity |].
  apply (BigNumberMax_through_related (fun _ => Return "[object Object]")
           "cap" (JSBigNumber 1 (BN_Finite false 5 0))
           {[ "cap" := JSBigNumber 2 (BN_Finite false 75 (-1)) ]}
           (BN_Finite false 100 0)); reflexivity.
Defined.

Lemma BigNumberMax_monotone_witness :
  BigNumberMax_validate (fun _ => Return "[object Object]")
    (BN_Finite false 100 0) (JSString "99.5") = true
  /\ decimal_le (BN_Finite false 100 0) (BN_Finite false 2 3)
  /\ BigNumberMax_validate (fun _ => Return "[object Object]")
       (BN_Finite false 2 3) (JSString "99.5") = true.
Proof.
  assert (Hle : decimal_le (BN_Finite false 100 0) (BN_Finite false 2 3))
    by (apply isLessThanOrEqualTo_spec; reflexivity).
  split; [reflexivity |]. split; [exact Hle |].
  apply (BigNumberMax_monotone (fun _ => Return "[object Object]")
           (BN_Finite false 100 0) (BN_Finite false 2 3) (JSString "99.5"));
    [reflexivity | exact Hle].
Defined.

(** *** IsLessThan *)

(** X5: the numeric comparison passes exactly when both fields hold
    numbers and the decorated one is strictly below the related one; a
    numeric string or a Decimal Value instance on either side fails. *)
Theorem IsLessThan_iff (property : string) (value : JSValue)
    (object : gmap string JSValue) :
  IsLessThan property value object = true <->
  exists a b,
    value = JSNumber a
    /\ get_property object property = JSNumber b
    /\ decimal_lt a b.
Proof.
  unfold IsLessThan. split.
  - destruct value as [| | | a | | | |]; try discriminate.
    destruct (get_property object property) as [| | | b | | | |];
      try discriminate.
    intros H. exists a, b. rewrite <- less_than_spec. auto.
  - intros (a & b & -> & -> & H). apply less_than_spec, H.
Qed.

(** X6: the numeric comparison never passes in both directions between two
    fields, and so never passes for a field against itself. *)
Theorem IsLessThan_asymmetric (f g : string) (v w : JSValue)
    (object : gmap string JSValue) :
  object !! f = Some v ->
  object !! g = Some w ->
  IsLessThan g v object = true ->
  IsLessThan f w object = false.
Proof.
  intros Hf Hg. unfold IsLessThan, get_property. rewrite Hf, Hg. simpl.
  destruct v as [| | | a | | | |]; try discriminate.
  destruct w as [| | | b | | | |]; try discriminate.
  unfold less_than. rewrite (compare_antisym a b).
  destruct (compare a b) as [[] |]; simpl; congruence.
Qed.

Lemma IsLessThan_asymmetric_witness :
  ({[ "min" := JSNumber (BN_Finite false 1 0);
      "max" := JSNumber (BN_Finite false 25 (-1)) ]}
     : gmap string JSValue) !! "min" = Some (JSNumber (BN_Finite false 1 0))
  /\ ({[ "min" := JSNumber (BN_Finite false 1 0);
         "max" := JSNumber (BN_Finite false 25 (-1)) ]}
        : gmap string JSValue) !! "max"
     = Some (JSNumber (BN_Finite false 25 (-1)))
  /\ IsLessThan "max" (JSNumber (BN_Finite false 1 0))
       {[ "min" := JSNumber (BN_Finite false 1 0);
          "max" := JSNumber (BN_Finite false 25 (-1)) ]} = true
  /\ IsLessThan "min" (JSNumber (BN_Finite false 25 (-1)))
       {[ "min" := JSNumber (BN_Finite false 1 0);
          "max" := JSNumber (BN_Finite false 25 (-1)) ]} = false.
Proof.
  split; [reflexivity |]. split; [reflexivity |]. split; [reflexivity |].
  apply (IsLessThan_asymmetric "min" "max" (JSNumber (BN_Finite false 1 0))
           (JSNumber (BN_Finite false 25 (-1)))); reflexivity.
Defined.

(** *** Positive and not zero *)

Lemma less_than_zero (bn : BigNumber) :
  less_than zero bn = isPositive bn && negb (isZero bn).
Proof.
  destruct bn as [| n | n c e]; try reflexivity.
  - destruct n; reflexivity.
  - unfold less_than, zero, isPositive, isZero, compare, compare_finite,
      s, Decimal.c, signed.
    change (Z.of_N 0) with 0.
    set (k := Z.min 0 e).
    assert (Hp : 0 < 10 ^ (e - k)) by (apply pow10_pos; subst k; lia).
    assert (Hc : (c =? 0)%N = (Z.of_N c =? 0)).
    { destruct (N.eqb_spec c 0), (Z.eqb_spec (Z.of_N c) 0);
        try reflexivity; lia. }
    rewrite Hc. generalize (N2Z.is_nonneg c). generalize (Z.of_N c) as z.
    intros z Hz.
    destruct n.
    + destruct (Z.compare_spec (0 * 10 ^ (0 - k)) (- z * 10 ^ (e - k)));
        destruct (Z.eqb_spec z 0); try reflexivity; nia.
    + destruct (Z.compare_spec (0 * 10 ^ (0 - k)) (z * 10 ^ (e - k)));
        destruct (Z.eqb_spec z 0); try reflexivity; nia.
Qed.

(** X7: a value passes both [BigNumberIsPositive] and [IsNonZeroBigNumber]
    exactly when it is a Decimal Value instance strictly above zero; the
    zero that the first lets through is stopped by the second. *)
Theorem positive_and_nonzero_iff (value : JSValue) :
  BigNumberIsPositive value && IsNonZeroBigNumber value = true <->
  exists ref bn, value = JSBigNumber ref bn /\ decimal_lt zero bn.
Proof.
  split.
  - destruct value as [| | | | | ref bn | |]; simpl; try discriminate.
    intros H. exists ref, bn. split; [reflexivity |].
    apply less_than_spec. rewrite less_than_zero. exact H.
  - intros (ref & bn & -> & H). simpl.
    apply less_than_spec in H. rewrite less_than_zero in H. exact H.
Qed.

(** *** IsDifferentValue and ArrayUniqueConcat seen from the other field *)

Lemma number_equals_sym (x y : BigNumber) :
  number_equals x y = number_equals y x.
Proof.
  unfold number_equals. rewrite (compare_antisym x y).
  destruct (compare x y) as [[] |]; reflexivity.
Qed.

Lemma strictEquals_sym (x y : JSValue) : strictEquals x y = strictEquals y x.
Proof.
  destruct x, y; simpl; try reflexivity;
    auto using number_equals_sym, String.eqb_sym, Nat.eqb_sym.
  destruct b, b0; reflexivity.
Qed.

(** X8: the distinct-string check is symmetric: decorating either of two
    fields and naming the other gives the same outcome, verdict or error. *)
Theorem IsDifferentValue_symmetric (f g : string)
    (object : gmap string JSValue) :
  IsDifferentValue g (get_property object f) object
  = IsDifferentValue f (get_property object g) object.
Proof.
  unfold IsDifferentValue.
  rewrite (strictEquals_sym (get_property object f) (get_property object g)).
  rewrite orb_comm. reflexivity.
Qed.

Lemma no_overlap_sym (l1 l2 : list JSValue) :
  no_overlap l1 l2 -> no_overlap l2 l1.
Proof.
  intros H x y Hx Hy. apply sameValueZero_false_sym, H; assumption.
Qed.

Lemma unique_concat_iff (l1 l2 : list JSValue) :
  Nat.eqb (Set_size (Set_new (l1 ++ l2))) (length l1 + length l2) = true <->
  no_duplicates l1 /\ no_duplicates l2 /\ no_overlap l1 l2.
Proof.
  rewrite Nat.eqb_eq, <- length_app, Set_size_full_iff.
  apply no_duplicates_app.
Qed.

Section Runtime2.

Variable ToString : JSValue -> Completion string.

(** X9: the uniqueness check across two array fields is symmetric: it
    gives the same verdict whichever of the two fields is decorated. *)
Theorem ArrayUniqueConcat_symmetric (f g : string) (r1 r2 : nat)
    (A B : list JSValue) (object : gmap string JSValue) :
  get_property object f = JSArray r1 A ->
  get_property object g = JSArray r2 B ->
  ArrayUniqueConcat ToString g A object
  = ArrayUniqueConcat ToString f B object.
Proof.
  intros Hf Hg. unfold ArrayUniqueConcat. rewrite Hf, Hg. simpl. f_equal.
  apply eq_true_iff_eq. rewrite !unique_concat_iff.
  split; intros (H1 & H2 & H3); auto using no_overlap_sym.
Qed.

End Runtime2.

Lemma ArrayUniqueConcat_symmetric_witness :
  get_property {[ "from" := JSArray 1 [JSString "a"];
                  "to" := JSArray 2 [JSString "b"; JSString "a"] ]} "from"
  = JSArray 1 [JSString "a"]
  /\ get_property {[ "from" := JSArray 1 [JSString "a"];
                     "to" := JSArray 2 [JSString "b"; JSString "a"] ]} "to"
     = JSArray 2 [JSString "b"; JSString "a"]
  /\ ArrayUniqueConcat (fun _ => Return "[object Object]") "to"
       [JSString "a"]
       {[ "from" := JSArray 1 [JSString "a"];
          "to" := JSArray 2 [JSString "b"; JSString "a"] ]}
     = ArrayUniqueConcat (fun _ => Return "[object Object]") "from"
         [JSString "b"; JSString "a"]
         {[ "from" := JSArray 1 [JSString "a"];
            "to" := JSArray 2 [JSString "b"; JSString "a"] ]}.
Proof.
  split; [reflexivity |]. split; [reflexivity |].
  apply (ArrayUniqueConcat_symmetric (fun _ => Return "[object Object]")
           "from" "to" 1 2 [JSString "a"] [JSString "b"; JSString "a"]);
    reflexivity.
Defined.

(** *** ArrayUniqueObjects *)

Lemma lookup_map {A B} (f : A -> B) (l : list A) (i : nat) :
  map f l !! i = option_map f (l !! i).
Proof.
  revert i. induction l as [| a l IH]; intros [| i]; simpl; auto.
Qed.

(** In a sequence without duplicates, two positions never hold the same
    value. *)
Lemma no_duplicates_lookup (l : list JSValue) (i j : nat) (x y : JSValue) :
  no_duplicates l -> i <> j -> l !! i = Some x -> l !! j = Some y ->
  sameValueZero x y = false.
Proof.
  unfold no_duplicates. intros Hnd. revert i j.
  induction Hnd as [| a l Ha Hnd IH]; intros i j Hij Hi Hj.
  - destruct i; discriminate Hi.
  - destruct (sameValueZero x y) eqn:E; [exfalso | reflexivity].
    destruct i as [| i], j as [| j]; simpl in Hi, Hj.
    + contradiction.
    + injection Hi as <-. apply Ha, InA_alt. exists y. split; [exact E |].
      apply list_elem_of_In, list_elem_of_lookup. eauto.
    + injection Hj as <-. apply Ha, InA_alt. exists x. split.
      * apply sameValueZero_sym, E.
      * apply list_elem_of_In, list_elem_of_lookup. eauto.
    + assert (Hne : i <> j) by congruence.
      specialize (IH i j Hne Hi Hj). congruence.
Qed.

Section Runtime3.

Variable ToNumber_given : JSValue -> Completion BigNumber.
Variable Get_given : JSValue -> string -> JSValue.

Lemma projection_is_object (property : string) (elems : list JSValue) :
  map (fun v => if JSType_eqb (typeof v) TObject && truthy v
                then Get Get_given v property else JSUndefined) elems
  = map (fun v => if is_object v
                  then Get Get_given v property else JSUndefined) elems.
Proof.
  apply map_ext. intros v. destruct v; reflexivity.
Qed.

Lemma ArrayUniqueObjects_array (property : string) (ref : nat)
    (elems : list JSValue) :
  ArrayUniqueObjects Get_given property (JSArray ref elems) = true <->
  no_duplicates
    (map (fun v => if is_object v
                   then Get Get_given v property else JSUndefined) elems).
Proof.
  unfold ArrayUniqueObjects.
  rewrite <- projection_is_object, <- Set_size_full_iff, Nat.eqb_eq, length_map.
  reflexivity.
Qed.

(** X10: the uniqueness check on an array of objects fails on anything
    that is not an array, and passes on an array exactly when the keys of
    its elements are pairwise different, where the key of an element is its
    property of the given name if the element is an object and [undefined]
    otherwise. *)
Theorem ArrayUniqueObjects_iff (property : string) (value : JSValue) :
  ArrayUniqueObjects Get_given property value = true <->
  exists ref elems,
    value = JSArray ref elems
    /\ no_duplicates
         (map (fun v => if is_object v
                        then Get Get_given v property else JSUndefined) elems).
Proof.
  split.
  - destruct value as [| | | | | | ref elems |]; try discriminate.
    intros H. exists ref, elems. split; [reflexivity |].
    exact (proj1 (ArrayUniqueObjects_array property ref elems) H).
  - intros (ref & elems & -> & H).
    exact (proj2 (ArrayUniqueObjects_array property ref elems) H).
Qed.

(** X11: an array with two elements that are not objects (primitives or
    [null]) never passes the uniqueness check, whatever the key: both
    project to [undefined]. *)
Theorem ArrayUniqueObjects_two_primitives (property : string) (ref : nat)
    (elems : list JSValue) (i j : nat) (x y : JSValue) :
  i <> j ->
  elems !! i = Some x -> is_object x = false ->
  elems !! j = Some y -> is_object y = false ->
  ArrayUniqueObjects Get_given property (JSArray ref elems) = false.
Proof.
  intros Hij Hi Hx Hj Hy.
  destruct (ArrayUniqueObjects Get_given property (JSArray ref elems)) eqn:E;
    [exfalso | reflexivity].
  pose proof (proj1 (ArrayUniqueObjects_array property ref elems) E) as Hnd.
  assert (H : sameValueZero JSUndefined JSUndefined = false).
  { apply (no_duplicates_lookup _ i j _ _ Hnd Hij).
    - rewrite lookup_map, Hi. simpl. rewrite Hx. reflexivity.
    - rewrite lookup_map, Hj. simpl. rewrite Hy. reflexivity. }
  discriminate H.
Qed.

(** X12: on an array of plain objects that each own the key property with
    a string in it, the uniqueness check passes exactly when the strings
    are pairwise different. *)
Theorem ArrayUniqueObjects_string_keys (property : string) (ref : nat)
    (elems : list JSValue) (keys : list string) :
  Forall2 (fun v key => exists r fields,
             v = JSObject r fields
             /\ own_property fields property = Some (JSString key))
    elems keys ->
  ArrayUniqueObjects Get_given property (JSArray ref elems) = true <->
  NoDup keys.
Proof.
  intros H.
  assert (Hmap : map (fun v => if is_object v
                               then Get Get_given v property else JSUndefined)
                   elems = map JSString keys).
  { induction H as [| v key elems keys (r & fields & -> & Hown) _ IH];
      simpl; [reflexivity |].
    rewrite Hown, IH. reflexivity. }
  rewrite ArrayUniqueObjects_array, <- no_duplicates_strings, <- Hmap.
  reflexivity.
Qed.

(** *** IsWholeNumber *)

Lemma equals_zero_iff (sg : bool) (n : N) (k : Z) :
  number_equals (BN_Finite sg n k) zero = true <-> n = 0%N.
Proof.
  rewrite number_equals_iff. unfold zero, compare, compare_finite, signed.
  change (Z.of_N 0) with 0.
  set (m := Z.min k 0).
  assert (Hp : 0 < 10 ^ (k - m)) by (apply pow10_pos; subst m; lia).
  split.
  - intros H. injection H as H. apply Z.compare_eq_iff in H.
    destruct sg; nia.
  - intros ->. f_equal. apply Z.compare_eq_iff. destruct sg; reflexivity.
Qed.

(** A number is its own floor exactly when it is whole. *)
Lemma floor_difference_zero (num : BigNumber) :
  number_equals (minus num (Math_floor num)) zero = true <-> whole num.
Proof.
  destruct num as [| n | n c e]; simpl.
  - split; [discriminate | tauto].
  - rewrite Bool.eqb_reflx. split; [discriminate | tauto].
  - destruct (Z.leb_spec 0 e) as [He | He].
    + simpl. rewrite equals_zero_iff, Z.min_id, Z.sub_diag. simpl.
      split; [intros _; left; exact He | reflexivity].
    + simpl. rewrite equals_zero_iff.
      assert (Hm : 0 < 10 ^ (- e)) by (apply pow10_pos; lia).
      replace (Z.min e 0) with e by lia.
      rewrite Z.sub_diag, Z.pow_0_r, Z.mul_1_r.
      replace (0 - e) with (- e) by lia.
      set (m := 10 ^ (- e)) in *.
      set (z := signed n c).
      assert (Hq : signed n (Z.abs_N (z / m)) = z / m).
      { unfold signed. rewrite N2Z.inj_abs_N. subst z. unfold signed.
        pose proof (N2Z.is_nonneg c) as Hc.
        destruct n.
        - assert (- Z.of_N c / m <= 0)
            by (apply Z.div_le_upper_bound; lia).
          lia.
        - assert (0 <= Z.of_N c / m) by (apply Z.div_pos; lia).
          lia. }
      rewrite Hq.
      assert (Hz : z - z / m * m = z mod m)
        by (rewrite (Z.mul_comm (z / m) m); symmetry; apply Z.mod_eq; lia).
      rewrite Hz.
      assert (Habs : Z.abs_N (z mod m) = 0%N <-> z mod m = 0) by lia.
      rewrite Habs, Z.mod_divide by lia.
      subst z. unfold signed. split.
      * intros H. right. destruct n; [rewrite Z.divide_opp_r in H |]; exact H.
      * intros [H | H]; [lia |].
        destruct n; [rewrite Z.divide_opp_r |]; exact H.
Qed.

(** X13: the whole-number check looks at the related field only: it
    returns true exactly when that field, converted to a number, is finite
    and has no fractional part.  A missing or [undefined] related field,
    not-a-number and the infinities fail; the decorated value itself is
    never examined. *)
Theorem IsWholeNumber_iff (property : string) (value : JSValue)
    (object : gmap string JSValue) :
  IsWholeNumber ToNumber_given property value object = Return true <->
  exists num,
    Number ToNumber_given (get_property object property) = Return num
    /\ whole num.
Proof.
  unfold IsWholeNumber.
  destruct (Number ToNumber_given (get_property object property))
    as [num | e]; simpl.
  - split.
    + intros H. injection H as H. exists num. split; [reflexivity |].
      apply floor_difference_zero, H.
    + intros (num' & Heq & H). injection Heq as <-.
      apply floor_difference_zero in H. rewrite H. reflexivity.
  - split; [discriminate |]. intros (num & Heq & _). discriminate Heq.
Qed.

End Runtime3.

Lemma ArrayUniqueObjects_two_primitives_witness :
  (1 <> 2)%nat
  /\ [JSObject 1 [("id", JSString "a")]; JSNull; JSNumber (BN_Finite false 7 0)]
       !! 1%nat = Some JSNull
  /\ is_object JSNull = false
  /\ [JSObject 1 [("id", JSString "a")]; JSNull; JSNumber (BN_Finite false 7 0)]
       !! 2%nat = Some (JSNumber (BN_Finite false 7 0))
  /\ is_object (JSNumber (BN_Finite false 7 0)) = false
  /\ ArrayUniqueObjects (fun _ _ => JSUndefined) "id"
       (JSArray 9 [JSObject 1 [("id", JSString "a")]; JSNull;
                   JSNumber (BN_Finite false 7 0)]) = false.
Proof.
  split; [discriminate |]. split; [reflexivity |]. split; [reflexivity |].
  split; [reflexivity |]. split; [reflexivity |].
  apply (ArrayUniqueObjects_two_primitives (fun _ _ => JSUndefined) "id" 9
           [JSObject 1 [("id", JSString "a")]; JSNull;
            JSNumber (BN_Finite false 7 0)]
           1 2 JSNull (JSNumber (BN_Finite false 7 0)));
    (discriminate || reflexivity).
Defined.

Lemma ArrayUniqueObjects_string_keys_witness :
  Forall2 (fun v key => exists r fields,
             v = JSObject r fields
             /\ own_property fields "id" = Some (JSString key))
    [JSObject 1 [("id", JSString "a")];
     JSObject 2 [("name", JSString "x"); ("id", JSString "b")]]
    ["a"; "b"]
  /\ (ArrayUniqueObjects (fun _ _ => JSUndefined) "id"
        (JSArray 9 [JSObject 1 [("id", JSString "a")];
                    JSObject 2 [("name", JSString "x"); ("id", JSString "b")]])
      = true <-> NoDup ["a"; "b"]).
Proof.
  assert (H : Forall2 (fun v key => exists r fields,
             v = JSObject r fields
             /\ own_property fields "id" = Some (JSString key))
    [JSObject 1 [("id", JSString "a")];
     JSObject 2 [("name", JSString "x"); ("id", JSString "b")]]
    ["a"; "b"]).
  { repeat constructor; eexists _, _; split; reflexivity. }
  split; [exact H |].
  apply (ArrayUniqueObjects_string_keys (fun _ _ => JSUndefined) "id" 9 _ _ H).
Defined.

(** *** IsStringRecord and IsStringArrayRecord *)

(** X14: the string-record check passes exactly on a plain object whose
    every entry holds a string; [null], arrays, primitives and Decimal
    Value instances fail, and the object without entries passes. *)
Theorem IsStringRecord_iff (value : JSValue) :
  IsStringRecord value = true <->
  exists ref fields,
    value = JSObject ref fields
    /\ forall key val, (key, val) ∈ fields -> exists str, val = JSString str.
Proof.
  split.
  - destruct value as [| | | | | ref bn | | ref fields]; try discriminate.
    + destruct bn; simpl; discriminate.
    + unfold IsStringRecord. simpl. intros H. exists ref, fields.
      split; [reflexivity |]. intros key val Hin.
      rewrite forallb_forall in H. apply list_elem_of_In in Hin.
      specialize (H _ Hin). simpl in H.
      destruct val; try discriminate. eauto.
  - intros (ref & fields & -> & H). unfold IsStringRecord. simpl.
    apply forallb_forall. intros [key val] Hin.
    apply list_elem_of_In in Hin. destruct (H key val Hin) as [str ->].
    reflexivity.
Qed.

(** X15: the string-array-record check passes exactly on a plain object
    whose every entry holds an array of strings. *)
Theorem IsStringArrayRecord_iff (value : JSValue) :
  IsStringArrayRecord value = true <->
  exists ref fields,
    value = JSObject ref fields
    /\ forall key val, (key, val) ∈ fields ->
         exists r items,
           val = JSArray r items
           /\ forall item, item ∈ items -> exists str, item = JSString str.
Proof.
  split.
  - destruct value as [| | | | | ref bn | | ref fields]; try discriminate.
    + destruct bn; simpl; discriminate.
    + unfold IsStringArrayRecord. simpl. intros H. exists ref, fields.
      split; [reflexivity |]. intros key val Hin.
      rewrite forallb_forall in H. apply list_elem_of_In in Hin.
      specialize (H _ Hin). simpl in H.
      destruct val as [| | | | | | r items |]; try discriminate.
      exists r, items. split; [reflexivity |]. intros item Hitem.
      rewrite forallb_forall in H. apply list_elem_of_In in Hitem.
      specialize (H _ Hitem). destruct item; try discriminate. eauto.
  - intros (ref & fields & -> & H). unfold IsStringArrayRecord. simpl.
    apply forallb_forall. intros [key val] Hin.
    apply list_elem_of_In in Hin.
    destruct (H key val Hin) as (r & items & -> & Hitems).
    apply forallb_forall. intros item Hitem.
    apply list_elem_of_In in Hitem. destruct (Hitems item Hitem) as [str ->].
    reflexivity.
Qed.

(** X16: the two record checks exclude each other on every object that
    has an entry: a value passes both only if it is the plain object
    without entries. *)
Theorem string_record_checks_exclusive (value : JSValue) :
  IsStringRecord value = true ->
  IsStringArrayRecord value = true ->
  exists ref, value = JSObject ref [].
Proof.
  destruct value as [| | | | | ref bn | | ref fields]; try discriminate.
  - destruct bn; discriminate.
  - destruct fields as [| [key val] rest]; [eauto |].
    destruct val; discriminate.
Qed.

Lemma string_record_checks_exclusive_witness :
  IsStringRecord (JSObject 1 []) = true
  /\ IsStringArrayRecord (JSObject 1 []) = true
  /\ exists ref, JSObject 1 [] = JSObject ref [].
Proof.
  split; [reflexivity |]. split; [reflexivity |].
  apply (string_record_checks_exclusive (JSObject 1 [])); reflexivity.
Defined.

(** *** What a decorated field reports *)

Lemma violations_app (s1 s2 : list Registration) (object : gmap string JSValue) :
  violations (s1 ++ s2) object
  = bind (violations s1 object) (fun first =>
      bind (violations s2 object) (fun second => Return (first ++ second)%list)).
Proof.
  induction s1 as [| r s1 IH]; simpl.
  - destruct (violations s2 object); reflexivity.
  - destruct (validate r (get_property object (propertyName r)) object)
      as [verdict | e]; simpl; [| reflexivity].
    rewrite IH.
    destruct (violations s1 object) as [first | e]; simpl; [| reflexivity].
    destruct (violations s2 object) as [second | e]; simpl; [| reflexivity].
    destruct verdict; reflexivity.
Qed.

Lemma ignoring_constraint_report (field constraint : string)
    (fn : BigNumber -> bool) (storage : list Registration)
    (object : gmap string JSValue) (earlier : list (string * string)) :
  violations storage object = Return earlier ->
  violations
    (registerDecorator
       {| name := constraint; propertyName := field;
          validate := fun value _ =>
                        Return (validateBigNumberOrIgnore value fn) |}
       (IsBigNumber_decorator field storage)) object
  = Return (earlier ++ report field constraint (get_property object field)
                         (validateBigNumberOrIgnore
                            (get_property object field) fn))%list.
Proof.
  intros H. unfold IsBigNumber_decorator, registerDecorator.
  rewrite !violations_app, H. simpl. unfold report.
  destruct (get_property object field) as [| | | | | ref bn | |]; simpl;
    rewrite <- ?app_assoc; reflexivity.
Qed.



End MoreFacts.

(** ** The authority registry: what the code guarantees *)

Module RegistryFacts.
Import Authorities AuthorityFacts.
Local Open Scope string_scope.

Section Registry.

Variable INDEX_KEY : string.

(** A write that succeeds leaves the record it built under the key of the
    registry, and answers with the principals of that record. *)
Lemma authorize_shape (ctx ctx' : GalaChainContext)
    (dto : AuthorizeBatchSubmitterDto) (res : BatchSubmitAuthoritiesResDto) :
  authorizeLaunchpadBatchSubmitter INDEX_KEY ctx dto = Return (res, ctx') ->
  exists start,
    (state ctx !! registry_key INDEX_KEY = Some start
     \/ (state ctx !! registry_key INDEX_KEY = None
         /\ start = {| authorities := [] |}))
    /\ res = {| res_authorities :=
                  authorities (fold_left addAuthority
                                 (authorize_authorities dto) start) |}
    /\ ctx' = {| state := <[registry_key INDEX_KEY :=
                             fold_left addAuthority
                               (authorize_authorities dto) start]> (state ctx);
                 callingUser := callingUser ctx |}.
Proof.
  intros H. destruct (state ctx !! registry_key INDEX_KEY) as [stored |] eqn:E.
  - rewrite (authorize_present _ _ _ _ E) in H. simpl in H.
    injection H as <- <-. exists stored. auto.
  - rewrite (authorize_absent _ _ _ E) in H. simpl in H.
    injection H as <- <-. exists {| authorities := [] |}. auto.
Qed.

Lemma deauthorize_shape (ctx ctx' : GalaChainContext)
    (dto : DeauthorizeBatchSubmitterDto) (res : BatchSubmitAuthoritiesResDto) :
  deauthorizeLaunchpadBatchSubmitter INDEX_KEY ctx dto = Return (res, ctx') ->
  exists stored,
    state ctx !! registry_key INDEX_KEY = Some stored
    /\ res = {| res_authorities :=
                  authorities (removeAuthority stored
                                 (deauthorize_authority dto)) |}
    /\ ctx' = {| state := <[registry_key INDEX_KEY :=
                             removeAuthority stored
                               (deauthorize_authority dto)]> (state ctx);
                 callingUser := callingUser ctx |}.
Proof.
  intros H. destruct (state ctx !! registry_key INDEX_KEY) as [stored |] eqn:E.
  - rewrite (deauthorize_present _ _ _ _ E) in H. simpl in H.
    injection H as <- <-. exists stored. auto.
  - unfold deauthorizeLaunchpadBatchSubmitter,
      fetchLaunchpadBatchSubmitAuthorities, getObjectByKey in H.
    rewrite E in H. discriminate H.
Qed.

(** X18: a successful authorize or deauthorize call writes the one record
    of the registry and nothing else: every other key of the world state
    keeps its value, and the caller of the context is unchanged. *)
Theorem writes_touch_only_the_registry (ctx ctx' : GalaChainContext)
    (adto : AuthorizeBatchSubmitterDto) (ddto : DeauthorizeBatchSubmitterDto)
    (res : BatchSubmitAuthoritiesResDto) :
  authorizeLaunchpadBatchSubmitter INDEX_KEY ctx adto = Return (res, ctx')
  \/ deauthorizeLaunchpadBatchSubmitter INDEX_KEY ctx ddto = Return (res, ctx') ->
  callingUser ctx' = callingUser ctx
  /\ forall k, k <> registry_key INDEX_KEY -> state ctx' !! k = state ctx !! k.
Proof.
  intros [H | H].
  - apply authorize_shape in H as (start & _ & _ & ->). simpl.
    split; [reflexivity |]. intros k Hk. apply lookup_insert_ne. congruence.
  - apply deauthorize_shape in H as (stored & _ & _ & ->). simpl.
    split; [reflexivity |]. intros k Hk. apply lookup_insert_ne. congruence.
Qed.

(** X19: the answer of a write is what the ledger then holds: listing the
    authorities right after a successful authorize or deauthorize call
    returns the response of that call. *)
Theorem list_after_write (ctx ctx' : GalaChainContext)
    (adto : AuthorizeBatchSubmitterDto) (ddto : DeauthorizeBatchSubmitterDto)
    (fdto : FetchBatchSubmitAuthoritiesDto) (res : BatchSubmitAuthoritiesResDto) :
  authorizeLaunchpadBatchSubmitter INDEX_KEY ctx adto = Return (res, ctx')
  \/ deauthorizeLaunchpadBatchSubmitter INDEX_KEY ctx ddto = Return (res, ctx') ->
  getLaunchpadBatchSubmitAuthorities INDEX_KEY ctx' fdto = Return res.
Proof.
  intros [H | H].
  - apply authorize_shape in H as (start & _ & -> & ->).
    unfold getLaunchpadBatchSubmitAuthorities,
      fetchLaunchpadBatchSubmitAuthorities, getObjectByKey. simpl.
    rewrite lookup_insert_eq. reflexivity.
  - apply deauthorize_shape in H as (stored & _ & -> & ->).
    unfold getLaunchpadBatchSubmitAuthorities,
      fetchLaunchpadBatchSubmitAuthorities, getObjectByKey. simpl.
    rewrite lookup_insert_eq. reflexivity.
Qed.


(** X21: authorize calls compose: authorizing a first list of principals
    and then a second one gives the same response and the same ledger as
    authorizing the two lists in one call. *)
Theorem authorize_composes (ctx ctx1 : GalaChainContext)
    (first second : list string) (res1 : BatchSubmitAuthoritiesResDto) :
  authorizeLaunchpadBatchSubmitter INDEX_KEY ctx
    {| authorize_authorities := first |} = Return (res1, ctx1) ->
  authorizeLaunchpadBatchSubmitter INDEX_KEY ctx1
    {| authorize_authorities := second |}
  = authorizeLaunchpadBatchSubmitter INDEX_KEY ctx
      {| authorize_authorities := first ++ second |}.
Proof.
  intros H. apply authorize_shape in H as (start & Hstart & _ & ->).
  simpl in *.
  erewrite authorize_present by (simpl; apply lookup_insert_eq). simpl.
  rewrite insert_insert_eq.
  destruct Hstart as [E | [E ->]].
  - rewrite (authorize_present _ _ _ _ E). simpl.
    rewrite fold_left_app. reflexivity.
  - rewrite (authorize_absent _ _ _ E). simpl.
    rewrite fold_left_app. reflexivity.
Qed.


(** X23: with the Authority Set of the spec ([removeAuthority] removes the
    principal and nothing else), a successful deauthorize call revokes
    exactly that principal: it is absent from the response, the membership
    check for it then answers false, and every other principal is listed
    exactly if it was before. *)
Theorem deauthorize_revokes (ctx ctx' : GalaChainContext) (p : string)
    (stored : LaunchpadBatchSubmitAuthorities)
    (res : BatchSubmitAuthoritiesResDto) :
  state ctx !! registry_key INDEX_KEY = Some stored ->
  deauthorizeLaunchpadBatchSubmitter INDEX_KEY ctx
    {| deauthorize_authority := p |} = Return (res, ctx') ->
  (p ∉ res_authorities res)
  /\ isAuthorizedForLaunchpadBatchSubmit INDEX_KEY
       {| state := state ctx'; callingUser := p |} = Return false
  /\ forall q, q <> p -> q ∈ res_authorities res <-> q ∈ authorities stored.
Proof.
  intros E H. rewrite (deauthorize_present _ _ _ _ E) in H. simpl in H.
  injection H as <- <-. simpl.
  assert (Hp : p ∉ filter (fun a => a ≠ p) (authorities stored)).
  { rewrite list_elem_of_filter. tauto. }
  split; [exact Hp |]. split.
  - unfold isAuthorizedForLaunchpadBatchSubmit,
      fetchLaunchpadBatchSubmitAuthorities, getObjectByKey. simpl.
    rewrite lookup_insert_eq. simpl. unfold isAuthorized. simpl.
    rewrite bool_decide_eq_false_2 by exact Hp. reflexivity.
  - intros q Hq. rewrite list_elem_of_filter. tauto.
Qed.

(** X24: with the Authority Set of the spec ([addAuthority] adds the
    principal unless it is present), a successful authorize call grants
    exactly what it is asked: the response lists the principals of the
    request and those listed before, and nothing else, and the membership
    check for a principal of the request then answers true. *)
Theorem authorize_grants (ctx ctx' : GalaChainContext)
    (dto : AuthorizeBatchSubmitterDto) (res : BatchSubmitAuthoritiesResDto) :
  authorizeLaunchpadBatchSubmitter INDEX_KEY ctx dto = Return (res, ctx') ->
  (forall q,
     q ∈ res_authorities res <->
     q ∈ authorize_authorities dto
     \/ exists stored, state ctx !! registry_key INDEX_KEY = Some stored
                       /\ q ∈ authorities stored)
  /\ forall q,
       q ∈ authorize_authorities dto ->
       isAuthorizedForLaunchpadBatchSubmit INDEX_KEY
         {| state := state ctx'; callingUser := q |} = Return true.
Proof.
  intros H. apply authorize_shape in H as (start & Hstart & -> & ->). simpl.
  assert (Hmem : forall q,
    q ∈ authorities (fold_left addAuthority (authorize_authorities dto) start)
    <-> q ∈ authorize_authorities dto
        \/ exists stored, state ctx !! registry_key INDEX_KEY = Some stored
                          /\ q ∈ authorities stored).
  { intros q. rewrite fold_addAuthority_elem_of.
    destruct Hstart as [E | [E ->]]; rewrite E; simpl.
    - split.
      + intros [Hq | Hq]; [right; eauto | left; exact Hq].
      + intros [Hq | (stored & Heq & Hq)]; [right; exact Hq |].
        injection Heq as <-. left. exact Hq.
    - rewrite elem_of_nil. split.
      + intros [[] | Hq]. left. exact Hq.
      + intros [Hq | (stored & Heq & _)]; [right; exact Hq | discriminate]. }
  split; [exact Hmem |].
  intros q Hq.
  unfold isAuthorizedForLaunchpadBatchSubmit,
    fetchLaunchpadBatchSubmitAuthorities, getObjectByKey. simpl.
  rewrite lookup_insert_eq. simpl. unfold isAuthorized.
  rewrite bool_decide_eq_true_2; [reflexivity |].
  apply Hmem. left. exact Hq.
Qed.

(** X25: with the Authority Set of the spec, authorizing a principal that
    is not listed and then deauthorizing it is a round trip: the second
    response is the list as it was before, and the world state is back to
    what it was. *)
Theorem authorize_then_deauthorize (ctx ctx1 ctx2 : GalaChainContext)
    (p : string) (stored : LaunchpadBatchSubmitAuthorities)
    (res1 res2 : BatchSubmitAuthoritiesResDto) :
  state ctx !! registry_key INDEX_KEY = Some stored ->
  p ∉ authorities stored ->
  authorizeLaunchpadBatchSubmitter INDEX_KEY ctx
    {| authorize_authorities := [p] |} = Return (res1, ctx1) ->
  deauthorizeLaunchpadBatchSubmitter INDEX_KEY ctx1
    {| deauthorize_authority := p |} = Return (res2, ctx2) ->
  res_authorities res2 = authorities stored /\ state ctx2 = state ctx.
Proof.
  intros E Hp H1 H2.
  rewrite (authorize_present _ _ _ _ E) in H1. simpl in H1.
  injection H1 as _ <-.
  erewrite deauthorize_present in H2 by (simpl; apply lookup_insert_eq).
  simpl in H2. injection H2 as <- <-. simpl.
  rewrite (addAuthority_absent _ _ Hp). simpl.
  assert (Hfilter : filter (fun a => a ≠ p) (authorities stored ++ [p])%list
                    = authorities stored).
  { clear E. induction (authorities stored) as [| a l IH].
    - simpl. rewrite filter_cons, decide_False by tauto. reflexivity.
    - apply not_elem_of_cons in Hp as [Hne Hp]. simpl.
      rewrite filter_cons, decide_True by congruence.
      f_equal. apply IH, Hp. }
  unfold removeAuthority. simpl. rewrite !Hfilter. split; [reflexivity |].
  rewrite insert_insert_eq. destruct stored as [l]. apply insert_id, E.
Qed.

(** X26: with the Authority Set of the spec, the list never shows a
    principal twice: on every ledger that successful authorize and
    deauthorize calls can produce from the empty one, the authorities that
    the list returns are pairwise different. *)
Theorem list_never_repeats (ctx : GalaChainContext)
    (fdto : FetchBatchSubmitAuthoritiesDto) (res : BatchSubmitAuthoritiesResDto) :
  reachable INDEX_KEY ctx ->
  getLaunchpadBatchSubmitAuthorities INDEX_KEY ctx fdto = Return res ->
  NoDup (res_authorities res).
Proof.
  intros Hreach H. apply reachable_no_duplicates in Hreach.
  unfold getLaunchpadBatchSubmitAuthorities,
    fetchLaunchpadBatchSubmitAuthorities, getObjectByKey in H.
  destruct (state ctx !! registry_key INDEX_KEY) as [stored |] eqn:E;
    [| discriminate H].
  simpl in H. injection H as <-. simpl. apply Hreach, E.
Qed.

End Registry.
End RegistryFacts.

(** ** The registry properties on sample ledgers *)

Module RegistryWitnesses.
Import Authorities RegistryFacts Scenario.
Local Open Scope string_scope.

Lemma writes_touch_only_the_registry_witness :
  (authorizeLaunchpadBatchSubmitter INDEX_KEY genesis
     {| authorize_authorities := ["alice"] |}
   = Return ({| res_authorities := ["alice"] |}, with_alice)
   \/ deauthorizeLaunchpadBatchSubmitter INDEX_KEY genesis
        {| deauthorize_authority := "alice" |}
      = Return ({| res_authorities := ["alice"] |}, with_alice))
  /\ callingUser with_alice = callingUser genesis
  /\ forall k, k <> registry_key INDEX_KEY ->
               state with_alice !! k = state genesis !! k.
Proof.
  assert (H : authorizeLaunchpadBatchSubmitter INDEX_KEY genesis
                {| authorize_authorities := ["alice"] |}
              = Return ({| res_authorities := ["alice"] |}, with_alice))
    by reflexivity.
  split; [left; exact H |].
  apply (writes_touch_only_the_registry INDEX_KEY genesis with_alice
           {| authorize_authorities := ["alice"] |}
           {| deauthorize_authority := "alice" |}
           {| res_authorities := ["alice"] |}).
  left. exact H.
Defined.

Lemma list_after_write_witness :
  (authorizeLaunchpadBatchSubmitter INDEX_KEY with_alice_bob
     {| authorize_authorities := ["alice"] |}
   = Return ({| res_authorities := ["bob"] |}, with_alice_bob)
   \/ deauthorizeLaunchpadBatchSubmitter INDEX_KEY with_alice_bob
        {| deauthorize_authority := "alice" |}
      = Return ({| res_authorities := ["bob"] |},
                with_bob))
  /\ getLaunchpadBatchSubmitAuthorities INDEX_KEY
       with_bob
       Build_FetchBatchSubmitAuthoritiesDto
     = Return {| res_authorities := ["bob"] |}.
Proof.
  assert (H : deauthorizeLaunchpadBatchSubmitter INDEX_KEY with_alice_bob
                {| deauthorize_authority := "alice" |}
              = Return ({| res_authorities := ["bob"] |},
                        with_bob))
    by reflexivity.
  split; [right; exact H |].
  apply (list_after_write INDEX_KEY with_alice_bob with_bob
           {| authorize_authorities := ["alice"] |}
           {| deauthorize_authority := "alice" |}
           Build_FetchBatchSubmitAuthoritiesDto
           {| res_authorities := ["bob"] |}).
  right. exact H.
Defined.


Lemma authorize_composes_witness :
  authorizeLaunchpadBatchSubmitter INDEX_KEY genesis
    {| authorize_authorities := ["alice"] |}
  = Return ({| res_authorities := ["alice"] |}, with_alice)
  /\ authorizeLaunchpadBatchSubmitter INDEX_KEY with_alice
       {| authorize_authorities := ["bob"; "alice"] |}
     = authorizeLaunchpadBatchSubmitter INDEX_KEY genesis
         {| authorize_authorities := ["alice"] ++ ["bob"; "alice"] |}.
Proof.
  split; [reflexivity |].
  apply (authorize_composes INDEX_KEY genesis with_alice ["alice"]
           ["bob"; "alice"] {| res_authorities := ["alice"] |}).
  reflexivity.
Defined.

Lemma deauthorize_revokes_witness :
  state with_alice_bob !! registry_key INDEX_KEY
  = Some {| authorities := ["alice"; "bob"] |}
  /\ deauthorizeLaunchpadBatchSubmitter INDEX_KEY with_alice_bob
       {| deauthorize_authority := "alice" |}
     = Return ({| res_authorities := ["bob"] |},
               with_bob)
  /\ ("alice" ∉ ["bob"])
  /\ isAuthorizedForLaunchpadBatchSubmit INDEX_KEY
       {| state := state with_bob; callingUser := "alice" |} = Return false
  /\ forall q, q <> "alice" -> q ∈ ["bob"] <-> q ∈ ["alice"; "bob"].
Proof.
  split; [reflexivity |]. split; [reflexivity |].
  apply (deauthorize_revokes INDEX_KEY with_alice_bob with_bob "alice"
           {| authorities := ["alice"; "bob"] |}
           {| res_authorities := ["bob"] |}); reflexivity.
Defined.

Lemma authorize_grants_witness :
  authorizeLaunchpadBatchSubmitter INDEX_KEY with_alice
    {| authorize_authorities := ["bob"] |}
  = Return ({| res_authorities := ["alice"; "bob"] |},
            with_alice_bob)
  /\ (forall q,
        q ∈ ["alice"; "bob"] <->
        q ∈ ["bob"]
        \/ exists stored,
             state with_alice !! registry_key INDEX_KEY = Some stored
             /\ q ∈ authorities stored)
  /\ forall q,
       q ∈ ["bob"] ->
       isAuthorizedForLaunchpadBatchSubmit INDEX_KEY
         {| state := state with_alice_bob; callingUser := q |} = Return true.
Proof.
  split; [reflexivity |].
  apply (authorize_grants INDEX_KEY with_alice with_alice_bob
           {| authorize_authorities := ["bob"] |}
           {| res_authorities := ["alice"; "bob"] |}).
  reflexivity.
Defined.

Lemma authorize_then_deauthorize_witness :
  state with_alice !! registry_key INDEX_KEY
  = Some {| authorities := ["alice"] |}
  /\ ("bob" ∉ ["alice"])
  /\ authorizeLaunchpadBatchSubmitter INDEX_KEY with_alice
       {| authorize_authorities := ["bob"] |}
     = Return ({| res_authorities := ["alice"; "bob"] |},
               with_alice_bob)
  /\ deauthorizeLaunchpadBatchSubmitter INDEX_KEY
       with_alice_bob
       {| deauthorize_authority := "bob" |}
     = Return ({| res_authorities := ["alice"] |}, with_alice)
  /\ res_authorities {| res_authorities := ["alice"] |} = ["alice"]
  /\ state with_alice = state with_alice.
Proof.
  assert (Hfresh : "bob" ∉ ["alice"]).
  { intros H. apply list_elem_of_singleton in H. discriminate H. }
  split; [reflexivity |]. split; [exact Hfresh |].
  split; [reflexivity |]. split; [reflexivity |].
  apply (authorize_then_deauthorize INDEX_KEY with_alice with_alice_bob
           with_alice "bob"
           {| authorities := ["alice"] |}
           {| res_authorities := ["alice"; "bob"] |}
           {| res_authorities := ["alice"] |});
    (reflexivity || exact Hfresh).
Defined.

Lemma list_never_repeats_witness :
  reachable INDEX_KEY with_alice_bob
  /\ getLaunchpadBatchSubmitAuthorities INDEX_KEY with_alice_bob
       Build_FetchBatchSubmitAuthoritiesDto
     = Return {| res_authorities := ["alice"; "bob"] |}
  /\ NoDup ["alice"; "bob"].
Proof.
  assert (H : reachable INDEX_KEY with_alice_bob).
  { apply (reachable_authorize INDEX_KEY with_alice with_alice_bob
             {| authorize_authorities := ["bob"; "alice"] |}
             {| res_authorities := ["alice"; "bob"] |});
      [| reflexivity].
    apply (reachable_authorize INDEX_KEY genesis with_alice
             {| authorize_authorities := ["alice"] |}
             {| res_authorities := ["alice"] |});
      [| reflexivity].
    apply reachable_genesis. }
  split; [exact H |]. split; [reflexivity |].
  apply (list_never_repeats INDEX_KEY with_alice_bob
           Build_FetchBatchSubmitAuthoritiesDto
           {| res_authorities := ["alice"; "bob"] |} H).
  reflexivity.
Defined.

End RegistryWitnesses.
